(** * arc-telegram-mod-bot: the moderation pipeline of [bot.py]

    A shallow embedding of the message classification pipeline
    ([check_message]), the spam detector ([check_for_spam],
    [check_recent_spam], [cleanup_spam_records]), the scheduled broadcasts
    ([post_security_message], [post_brand_assets]) and the listing of the
    filters ([list_filters]), followed by the properties that were checked
    against them.

    Conventions of the embedding:
    - a Python [str] is a [text]: the list of its code points, so that
      [len] is the length of the list.  What Python takes from the Unicode
      database ([str.lower], the white space removed by [str.strip], the
      classes [\w], [\d] and [\s] of [re]) is a parameter, the class
      [Unicode]; every theorem holds whatever these tables are, hence for
      Python's.  The instance [ascii_tables] is their restriction to
      ASCII; it only serves to evaluate the code on ASCII examples;
    - a [datetime] is a [Z] counting microseconds, a [timedelta] a [Z]
      number of microseconds;
    - the dictionaries SPAM_TRACKER and SPAM_RECORDS are [gmap]s keyed by
      the message text; FILTERS, whose iteration order matters, is an
      association list;
    - calls to the Telegram client are recorded in a trace; whether a call
      raises, and what it answers, is decided by a [Platform] oracle that
      sees the trace so far;
    - [print] statements are not modelled. *)

From Stdlib Require Import ZArith NArith Ascii String DecimalString Sorted.
From stdpp Require Import gmap strings list fin_maps.

Local Open Scope Z_scope.

(** ** Texts *)

Module Text.

(** A Python [str]: its code points. *)
Abbreviation text := (list N).

(** The code points of a UTF-8 encoded literal. *)
Fixpoint utf8_decode (bytes : list N) : text :=
  match bytes with
  | [] => []
  | b :: l1 =>
      if (b <? 128)%N then b :: utf8_decode l1
      else
        match l1 with
        | [] => [b]
        | b1 :: l2 =>
            if (b <? 224)%N
            then ((b - 192) * 64 + (b1 - 128))%N :: utf8_decode l2
            else
              match l2 with
              | [] => [b; b1]
              | b2 :: l3 =>
                  if (b <? 240)%N
                  then ((b - 224) * 4096 + (b1 - 128) * 64 + (b2 - 128))%N
                         :: utf8_decode l3
                  else
                    match l3 with
                    | [] => [b; b1; b2]
                    | b3 :: l4 =>
                        ((b - 240) * 262144 + (b1 - 128) * 4096
                         + (b2 - 128) * 64 + (b3 - 128))%N :: utf8_decode l4
                    end
              end
        end
  end.

(** The text written by a string literal. *)
Definition T (s : string) : text :=
  utf8_decode (N_of_ascii <$> list_ascii_of_string s).

Definition between (lo hi c : N) : bool := ((lo <=? c) && (c <=? hi))%N.

(** The lower-case letter of an ASCII capital; other characters are left
    as they are. *)
Definition ascii_lower (c : N) : N :=
  if between 65 90 c then (c + 32)%N else c.

(** What Python takes from the Unicode database.  [lower] is [str.lower]
    (a function of the whole string: it is not computed character by
    character, and may change the length); [isspace] tells the characters
    removed by [str.strip()]; [re_w], [re_d] and [re_s] are the classes
    [\w], [\d] and [\s] of the module [re] for [str] patterns.  The three
    laws are the facts about [str.lower] and [\d] that the properties use:
    the empty string is its own lower case; a run of ASCII characters is
    lowered in place, letter by letter, whatever surrounds it; the ASCII
    digits are decimal digits. *)
Class Unicode : Type := {
  lower : text -> text;
  isspace : N -> bool;
  re_w : N -> bool;
  re_d : N -> bool;
  re_s : N -> bool;
  lower_nil : lower [] = [];
  lower_ascii : forall pre mid post : text,
    Forall (fun c => (c < 128)%N) mid ->
    exists pre' post',
      lower (pre ++ mid ++ post) = pre' ++ (ascii_lower <$> mid) ++ post';
  re_d_ascii : forall c : N, (48 <= c <= 57)%N -> re_d c = true
}.

Fixpoint lstrip `{uni : Unicode} (l : text) : text :=
  match l with
  | c :: l' => if isspace c then lstrip l' else l
  | [] => []
  end.

(** [s.strip()] *)
Definition strip `{uni : Unicode} (s : text) : text :=
  reverse (lstrip (reverse (lstrip s))).

(** [len(s)]: the number of code points. *)
Definition len (s : text) : nat := length s.

(** Truth value of a string: non-empty. *)
Definition truthy (s : text) : bool :=
  match s with [] => false | _ => true end.

Fixpoint starts_with (p l : text) : bool :=
  match p, l with
  | [], _ => true
  | a :: p', b :: l' => N.eqb a b && starts_with p' l'
  | _ :: _, [] => false
  end.

Fixpoint occurs_in (p l : text) : bool :=
  starts_with p l ||
  match l with
  | [] => false
  | _ :: l' => occurs_in p l'
  end.

(** [k in s] for strings: [k] is a substring of [s]. *)
Definition substring_of (k s : text) : bool := occurs_in k s.

(** [str(n)] for an integer. *)
Definition str (n : Z) : text := T (NilZero.string_of_int (Z.to_int n)).

(** [a <= b] for strings: the order of the code points, character by
    character. *)
Fixpoint text_leb (a b : text) : bool :=
  match a, b with
  | [], _ => true
  | _ :: _, [] => false
  | x :: a', y :: b' =>
      if (x <? y)%N then true
      else if (x =? y)%N then text_leb a' b' else false
  end.

(** ASCII digits, word characters and white space. *)
Definition ascii_digit (c : N) : bool := between 48 57 c.
Definition ascii_word (c : N) : bool :=
  between 97 122 c || between 65 90 c || ascii_digit c || (c =? 95)%N.
Definition ascii_space (c : N) : bool := between 9 13 c || between 28 32 c.

(** The tables of Python on ASCII characters.  Outside ASCII a character
    is taken to be neither a letter, nor a digit, nor white space, which is
    not what Python does: this instance is meant for ASCII texts only. *)
Definition ascii_tables : Unicode :=
  {| lower := fmap ascii_lower;
     isspace := ascii_space;
     re_w := ascii_word;
     re_d := ascii_digit;
     re_s := ascii_space;
     lower_nil := eq_refl;
     lower_ascii := fun pre mid post _ =>
       ex_intro _ (ascii_lower <$> pre)
         (ex_intro _ (ascii_lower <$> post)
            (eq_trans (fmap_app ascii_lower pre (mid ++ post))
               (f_equal (app (ascii_lower <$> pre))
                        (fmap_app ascii_lower mid post))));
     re_d_ascii := fun c H =>
       proj2 (andb_true_iff _ _)
         (conj (proj2 (N.leb_le 48 c) (proj1 H))
               (proj2 (N.leb_le c 57) (proj2 H))) |}.

End Text.

(** ** Regular expressions

    The three patterns of the source are written in a small pattern
    language and matched by computing, for a start position, the positions
    at which a match of the pattern can end.  [re.search] only asks whether
    some match exists, so the order in which a backtracking matcher tries
    the alternatives does not matter. *)

Module Re.

Import Text.

Inductive regex : Type :=
  | Eps
  | Class (p : N -> bool)
  | Cat (r1 r2 : regex)
  | Alt (r1 r2 : regex)
  | Star (r : regex)
  | Look (p : option N -> option N -> bool).

Definition Chr (c : N) : regex := Class (N.eqb c).
Definition Opt (r : regex) : regex := Alt r Eps.
Definition Plus (r : regex) : regex := Cat r (Star r).

(** [re.escape(s)]: the pattern matching [s] literally. *)
Definition Lit (s : text) : regex :=
  foldr (fun c r => Cat (Chr c) r) Eps s.

Definition word_at `{uni : Unicode} (c : option N) : bool :=
  match c with Some a => re_w a | None => false end.

(** [\b] *)
Definition word_boundary `{uni : Unicode} : regex :=
  Look (fun p n => xorb (word_at p) (word_at n)).
(** [(?<!\w)] *)
Definition not_after_word `{uni : Unicode} : regex := Look (fun p _ => negb
    (word_at p)).
(** [(?!\w)] *)
Definition not_before_word `{uni : Unicode} : regex := Look (fun _ n => negb
    (word_at n)).

Definition char_before (s : text) (i : nat) : option N :=
  match i with O => None | S j => s !! j end.

(** Iteration of [f] from [i], each round consuming at least one
    character; [fuel] bounds the number of rounds by the text length. *)
Fixpoint star_ends (f : nat -> list nat) (fuel : nat) (i : nat) : list nat :=
  match fuel with
  | O => [i]
  | S k => i :: flat_map (star_ends f k) (List.filter (Nat.ltb i) (f i))
  end.

(** End positions of the matches of [r] in [s] that start at [i]. *)
Fixpoint ends (r : regex) (s : text) (i : nat) : list nat :=
  match r with
  | Eps => [i]
  | Class p =>
      match s !! i with
      | Some c => if p c then [S i] else []
      | None => []
      end
  | Cat r1 r2 => flat_map (ends r2 s) (ends r1 s i)
  | Alt r1 r2 => ends r1 s i ++ ends r2 s i
  | Star r' => star_ends (ends r' s) (length s) i
  | Look p => if p (char_before s i) (s !! i) then [i] else []
  end.

(** Truth value of [re.search(r, s)]. *)
Definition search (r : regex) (s : text) : bool :=
  existsb (fun i => match ends r s i with [] => false | _ => true end)
          (seq 0 (S (length s))).

End Re.

(** ** Patterns of the source *)

Import Text Re.

(** The pattern of line 100: one or more groups made of a digit and
    optional white space, then an x; or an x, optional white space, and one
    or more such groups. *)
Definition multiplication_pattern `{uni : Unicode} : regex :=
  let digits := Plus (Cat (Class re_d) (Star (Class re_s))) in
  Alt (Cat digits (Chr 120))
      (Cat (Chr 120) (Cat (Star (Class re_s)) digits)).

Definition contains_multiplication_phrase `{uni : Unicode} (text : text) : bool :=
  let text := lower text in
  search multiplication_pattern text.

(** [rf'(?<!\w)/?{re.escape(normalized_trigger)}(_\w+)?(?!\w)'] *)
Definition trigger_pattern `{uni : Unicode} (trigger : text) : regex :=
  let normalized_trigger := lower (strip trigger) in
  Cat not_after_word
   (Cat (Opt (Chr 47))
     (Cat (Lit normalized_trigger)
       (Cat (Opt (Cat (Chr 95) (Plus (Class re_w))))
            not_before_word))).

(** [r'\b' + re.escape(phrase) + r'\b'] *)
Definition phrase_pattern `{uni : Unicode} (phrase : text) : regex :=
  Cat word_boundary (Cat (Lit phrase) word_boundary).

(** ** The spam detector (lines 38-43 and 103-151) *)

(** A [collections.deque]: its items, oldest first, and its [maxlen]
    ([None] for an unbounded deque). *)
Record deque : Type := Deque {
  items : list (Z * Z);
  maxlen : option nat
}.

(** [d.append(x)]: a bounded deque that is full drops its oldest item. *)
Definition deque_append (d : deque) (x : Z * Z) : deque :=
  match maxlen d with
  | None => Deque (items d ++ [x]) None
  | Some m =>
      if Nat.ltb (length (items d)) m then Deque (items d ++ [x]) (Some m)
      else Deque (drop 1 (items d ++ [x])) (Some m)
  end.

Definition seconds (n : Z) : Z := n * 1000000.
Definition minutes (n : Z) : Z := seconds (n * 60).

Definition MUTE_DURATION : Z := 3 * 24 * 60 * 60.
Definition SPAM_THRESHOLD : nat := 3.
Definition TIME_WINDOW : Z := seconds 15.
Definition SPAM_RECORD_DURATION : Z := minutes 5.

(** [deque(maxlen=SPAM_THRESHOLD)], the default factory of SPAM_TRACKER. *)
Definition default_factory : deque := Deque [] (Some SPAM_THRESHOLD).

(** The two process-wide dictionaries. *)
Record SpamState : Type := {
  SPAM_TRACKER : gmap text deque;
  SPAM_RECORDS : gmap text Z
}.

Definition empty_spam : SpamState :=
  {| SPAM_TRACKER := ∅; SPAM_RECORDS := ∅ |}.

(** [SPAM_TRACKER[key]] on a [defaultdict]: a missing key is inserted with
    a fresh bounded deque. *)
Definition tracker_getitem (t : gmap text deque) (key : text)
  : deque * gmap text deque :=
  match t !! key with
  | Some d => (d, t)
  | None => (default_factory, <[key := default_factory]> t)
  end.

Definition is_recent (now : Z) (entry : Z * Z) : Prop := now - entry.2 ≤ TIME_WINDOW.

#[global] Instance is_recent_dec now entry : Decision (is_recent now entry) :=
  decide (now - entry.2 ≤ TIME_WINDOW).

(** [list(set(ids))]: the distinct ids.  The iteration order of a Python
    set is unspecified; the model takes the order of [elements]. *)
Definition distinct (ids : list Z) : list Z :=
  elements (list_to_set ids : gset Z).

(** [check_for_spam(message_text, user_id)], with the clock reading [now]
    of line 105 as an argument. *)
Definition check_for_spam (message_text : text) (user_id : Z) (now : Z)
    (st : SpamState) : list Z * SpamState :=
  (* line 108 *)
  let '(d, tracker) := tracker_getitem (SPAM_TRACKER st) message_text in
  let tracker := <[message_text := deque_append d (user_id, now)]> tracker in
  (* lines 111-112 *)
  let '(d, tracker) := tracker_getitem tracker message_text in
  let recent := filter (is_recent now) (items d) in
  let tracker := <[message_text := Deque recent None]> tracker in
  if Nat.leb SPAM_THRESHOLD (length recent) then
    let records := <[message_text := now]> (SPAM_RECORDS st) in
    let spammer_ids := distinct (recent.*1) in
    (spammer_ids, {| SPAM_TRACKER := tracker; SPAM_RECORDS := records |})
  else
    match recent with
    | oldest :: _ =>
        if Nat.ltb (length recent) SPAM_THRESHOLD
           && bool_decide (now - oldest.2 > TIME_WINDOW)
        then
          ([], {| SPAM_TRACKER := delete message_text tracker;
                  SPAM_RECORDS := SPAM_RECORDS st |})
        else ([], {| SPAM_TRACKER := tracker; SPAM_RECORDS := SPAM_RECORDS st |})
    | [] => ([], {| SPAM_TRACKER := tracker; SPAM_RECORDS := SPAM_RECORDS st |})
    end.

(** [check_recent_spam(message_text)]: the truth value of what it returns
    (a [datetime] is always true), with the clock reading of line 133 as
    an argument. *)
Definition check_recent_spam (message_text : text) (now : Z)
    (st : SpamState) : bool :=
  match SPAM_RECORDS st !! message_text with
  | Some timestamp => bool_decide (now - timestamp ≤ SPAM_RECORD_DURATION)
  | None => false
  end.

(** One round of the loop of lines 144-148. *)
Definition cleanup_step (now : Z) (records : gmap text Z)
    (item : text * Z) : gmap text Z :=
  if bool_decide (now - item.2 > SPAM_RECORD_DURATION)
  then delete item.1 records
  else records.

(** [cleanup_spam_records(context)]: the loop runs over a copy of the
    items taken before the first deletion. *)
Definition cleanup_spam_records (now : Z) (st : SpamState) : SpamState :=
  {| SPAM_TRACKER := SPAM_TRACKER st;
     SPAM_RECORDS := foldl (cleanup_step now) (SPAM_RECORDS st)
                           (map_to_list (SPAM_RECORDS st)) |}.

(** ** Telegram objects and configuration *)

Module User.
Record t : Type := mk {
  id : Z;
  full_name : text;
  first_name : text;
  username : option text
}.
End User.

Module Message.
Record t : Type := mk {
  message_id : Z;
  text : option text;
  date : Z
}.
End Message.

(** The attributes of an [Update] read by [check_message];
    [effective_chat] stands for [update.effective_chat.id]. *)
Record Update : Type := {
  message : option Message.t;
  channel_post : option Message.t;
  effective_chat : Z;
  effective_user : option User.t
}.

(** [update.message or update.channel_post] *)
Definition incoming (update : Update) : option Message.t :=
  match message update with
  | Some m => Some m
  | None => channel_post update
  end.

(** A value of the FILTERS dictionary; [None] is an absent key. *)
Record filter_data : Type := {
  response_text : option text;
  media : option text;
  type : option text
}.

(** What the module loads at import time from files that are not part of
    the source: the filter table, the four phrase lists, the chat of the
    broadcasts and the brand-assets messages. *)
Record Config : Type := {
  FILTERS : list (text * filter_data);
  BAN_PHRASES : list text;
  MUTE_PHRASES : list text;
  DELETE_PHRASES : list text;
  WHITELIST_PHRASES : list text;
  GROUP_CHAT_ID : Z;
  brand_assets_messages : list text
}.

(** [load_phrases], applied to the lines of the file. *)
Definition load_phrases `{uni : Unicode} (lines : list text) : list text :=
  (fun line => lower (strip line)) <$> lines.

Definition MEDIA_FOLDER : text := (T "media").

(** The list of lines 31-33; the two adjacent literals of the source are
    one string. *)
Definition SUSPICIOUS_USERNAMES : list text :=
  T <$> [ "dev"; "developer"; "admin"; "mod"; "owner"; "arc"; "arc_agent";
          "arc agentarch_agent"; "arch agent"; "support"; "helpdesk";
          "administrator"; "arc admin"; "arc_admin" ]%string.

(** [x or ''] for an optional string *)
Definition or_empty (x : option text) : text := default (T "") x.

(** Lines 179-180: a keyword of SUSPICIOUS_USERNAMES occurs in the lowered
    full name and username of the sender. *)
Definition has_suspicious_name `{uni : Unicode} (user : User.t) : bool :=
  let name_username :=
    lower (User.full_name user ++ (T " ") ++ or_empty (User.username user)) in
  existsb (fun keyword => substring_of keyword name_username) SUSPICIOUS_USERNAMES.

(** ** The Telegram client and the world *)

Inductive Call : Type :=
  | GetChatAdministrators (chat_id : Z)
  | DeleteMessage (chat_id message_id : Z)
  | BanChatMember (chat_id user_id : Z)
  | RestrictChatMember (chat_id user_id until_date : Z)
  | SendMessage (chat_id : Z) (text : text)
  | PinChatMessage (chat_id message_id : Z)
  | ReplyText (message_id : Z) (text : text)
  | SendAnimation (chat_id : Z) (path : text) (caption : option text)
  | SendPhoto (chat_id : Z) (path : text) (caption : option text)
  | SendVideo (chat_id : Z) (path : text) (caption : option text).

(** Everything outside the process.  [raises h c] tells whether the call
    [c], made after the calls [h], raises; the other fields are the
    answers of the calls and of the system. *)
Record Platform : Type := {
  raises : list Call -> Call -> bool;
  chat_administrators : list Call -> Z -> list Z;
  sent_message_id : list Call -> Z;
  path_exists : text -> bool;
  clock : nat -> Z
}.

Record World : Type := {
  spam : SpamState;
  calls : list Call;
  clock_reads : nat
}.

Inductive exn : Type := AttributeError | TelegramError.

Inductive result (A : Type) : Type :=
  | Ok (a : A)
  | Raise (e : exn).
Arguments Ok {A} a.
Arguments Raise {A} e.

(** Computations that read and write the world and may raise. *)
Definition M (A : Type) : Type := World -> result A * World.

#[global] Instance M_ret : MRet M := fun A a w => (Ok a, w).
#[global] Instance M_bind : MBind M := fun A B f m w =>
  match m w with
  | (Ok a, w') => f a w'
  | (Raise e, w') => (Raise e, w')
  end.

(** [try: m except Exception: pass] *)
Definition try_except (m : M unit) : M unit := fun w =>
  match m w with
  | (Raise _, w') => (Ok tt, w')
  | r => r
  end.

(** Reading an attribute of an object that may be [None]. *)
Definition attr {A : Type} (o : option A) : M A := fun w =>
  match o with
  | Some a => (Ok a, w)
  | None => (Raise AttributeError, w)
  end.

(** Running the detector on the shared dictionaries. *)
Definition on_spam {A : Type} (f : SpamState -> A * SpamState) : M A := fun w =>
  let '(a, st) := f (spam w) in
  (Ok a, {| spam := st; calls := calls w; clock_reads := clock_reads w |}).

(** Early [return] inside a block: [Done] leaves the function, [Next]
    falls through to the statement after the block. *)
Inductive flow : Type := Done | Next.

(** [os.path.join(a, b)] *)
Definition path_join (a b : text) : text :=
  if starts_with (T "/") b then b else a ++ (T "/") ++ b.

(** [x or None] for a string *)
Definition or_None (x : text) : option text :=
  if truthy x then Some x else None.

Section Bot.

Context `{uni : Unicode} (cfg : Config) (plat : Platform).

Definition bot_call (c : Call) : M unit := fun w =>
  let w' := {| spam := spam w; calls := calls w ++ [c];
               clock_reads := clock_reads w |} in
  if raises plat (calls w) c then (Raise TelegramError, w') else (Ok tt, w').

(** [datetime.now(timezone.utc)] *)
Definition datetime_now : M Z := fun w =>
  (Ok (clock plat (clock_reads w)),
   {| spam := spam w; calls := calls w; clock_reads := S (clock_reads w) |}).

Definition get_chat_administrators (chat_id : Z) : M (list Z) := fun w =>
  (bot_call (GetChatAdministrators chat_id) ;;
   mret (chat_administrators plat (calls w) chat_id)) w.

Definition send_message (chat_id : Z) (text : text) : M Z := fun w =>
  (bot_call (SendMessage chat_id text) ;;
   mret (sent_message_id plat (calls w))) w.

(** The names of the moderation calls of [check_message]. *)
Definition delete_message (chat_id message_id : Z) : M unit :=
  bot_call (DeleteMessage chat_id message_id).
Definition ban_chat_member (chat_id user_id : Z) : M unit :=
  bot_call (BanChatMember chat_id user_id).
Definition restrict_chat_member (chat_id user_id until_date : Z) : M unit :=
  bot_call (RestrictChatMember chat_id user_id until_date).
Definition reply_text (msg : Message.t) (text : text) : M unit :=
  bot_call (ReplyText (Message.message_id msg) text).

(** [re.search] of a trigger of FILTERS, lines 190-193 and 254-259. *)
Definition trigger_matches (message_text trigger : text) : bool :=
  search (trigger_pattern trigger) message_text.

(** [re.search] of a phrase of a block list, lines 228, 237 and 248. *)
Definition phrase_matches (message_text phrase : text) : bool :=
  search (phrase_pattern phrase) message_text.

(** [message.date + timedelta(seconds=MUTE_DURATION)] *)
Definition mute_until (msg : Message.t) : Z :=
  Message.date msg + seconds MUTE_DURATION.

(** The loop of lines 214-222 over the spammers. *)
Fixpoint mute_spammers (chat_id : Z) (msg : Message.t) (ids : list Z) : M unit :=
  match ids with
  | [] => mret tt
  | spammer_id :: rest =>
      try_except
        (restrict_chat_member chat_id spammer_id (mute_until msg) ;;
         send_message chat_id
           ((T "User ") ++ str spammer_id ++ (T " has been muted for 3 days.")) ;;
         mret tt) ;;
      mute_spammers chat_id msg rest
  end.

(** Lines 207-223: the spam detector and the mutes. *)
Definition spam_check (chat_id : Z) (user_id : Z) (msg : Message.t)
    (message_text : text) : M flow :=
  now ← datetime_now;
  spammer_ids ← on_spam (check_for_spam message_text user_id now);
  now' ← datetime_now;
  flagged ← on_spam (fun st => (check_recent_spam message_text now' st, st));
  let spammer_ids :=
    if flagged && negb (bool_decide (user_id ∈ spammer_ids))
    then spammer_ids ++ [user_id] else spammer_ids in
  match spammer_ids with
  | [] => mret Next
  | _ => mute_spammers chat_id msg (distinct spammer_ids) ;; mret Done
  end.

(** Lines 225-251: the ban, mute and delete phrases. *)
Definition phrase_checks (chat_id : Z) (user : User.t) (msg : Message.t)
    (message_text : text) : M flow :=
  if existsb (phrase_matches message_text) (BAN_PHRASES cfg) then
    ban_chat_member chat_id (User.id user) ;;
    reply_text msg ((T "arc angel fallen. ") ++ User.first_name user ++ (T
        " has been banned.")) ;;
    mret Done
  else if existsb (phrase_matches message_text) (MUTE_PHRASES cfg) then
    restrict_chat_member chat_id (User.id user) (mute_until msg) ;;
    reply_text msg (User.first_name user ++ (T " has been muted for 3 days.")) ;;
    mret Done
  else if existsb (phrase_matches message_text) (DELETE_PHRASES cfg) then
    delete_message chat_id (Message.message_id msg) ;;
    mret Done
  else mret Next.

(** Lines 189-202: the value of [should_skip_spam_check]. *)
Definition should_skip_spam_check (message_text : text) : bool :=
  if existsb (trigger_matches message_text) (FILTERS cfg).*1 then true
  else bool_decide (strip message_text ∈ WHITELIST_PHRASES cfg).

(** Lines 173-251: the block guarded by [user_id not in admin_ids]. *)
Definition moderate (chat_id : Z) (user : User.t) (msg : Message.t)
    (message_text : text) : M flow :=
  if Nat.ltb (len (strip message_text)) 2 then
    delete_message chat_id (Message.message_id msg) ;; mret Done
  else if has_suspicious_name user then
      ban_chat_member chat_id (User.id user) ;; mret Done
    else if contains_multiplication_phrase message_text then
      delete_message chat_id (Message.message_id msg) ;; mret Done
    else
      f ← (if negb (should_skip_spam_check message_text)
           then spam_check chat_id (User.id user) msg message_text
           else mret Next);
      match f with
      | Done => mret Done
      | Next => phrase_checks chat_id user msg message_text
      end.

(** Lines 260-278: the answer of the first matching filter.  Opening the
    media file (line 267) is taken to succeed when the path exists. *)
Definition respond (chat_id : Z) (msg : Message.t) (fd : filter_data) : M unit :=
  let response := or_empty (response_text fd) in
  let media_type := lower (default (T "gif") (type fd)) in
  if truthy (or_empty (media fd)) then
    let media_path := path_join MEDIA_FOLDER (or_empty (media fd)) in
    if path_exists plat media_path then
      if bool_decide (media_type ∈ [(T "gif"); (T "animation")]) then
        bot_call (SendAnimation chat_id media_path (or_None response))
      else if bool_decide (media_type = (T "image")) then
        bot_call (SendPhoto chat_id media_path (or_None response))
      else if bool_decide (media_type = (T "video")) then
        bot_call (SendVideo chat_id media_path (or_None response))
      else mret tt
    else if truthy response then reply_text msg response
    else mret tt
  else if truthy response then reply_text msg response
  else mret tt.

(** Lines 253-278: the loop over FILTERS. *)
Fixpoint filter_responses (chat_id : Z) (msg : Message.t) (message_text : text)
    (filters : list (text * filter_data)) : M unit :=
  match filters with
  | [] => mret tt
  | (trigger, fd) :: rest =>
      if trigger_matches message_text trigger then respond chat_id msg fd
      else filter_responses chat_id msg message_text rest
  end.

(** [check_message(update, context)] *)
Definition check_message (update : Update) : M unit :=
  let msg := incoming update in
  let chat_id := effective_chat update in
  user ← attr (effective_user update);
  let user_id := User.id user in
  msg ← attr msg;
  text ← attr (Message.text msg);
  let message_text := lower text in
  admin_ids ← get_chat_administrators chat_id;
  if negb (truthy text) then mret tt
  else
    f ← (if negb (bool_decide (user_id ∈ admin_ids))
         then moderate chat_id user msg message_text
         else mret Next);
    match f with
    | Done => mret tt
    | Next => filter_responses chat_id msg message_text (FILTERS cfg)
    end.

(** [post_brand_assets(context)] *)
Fixpoint broadcast (messages : list text) : M unit :=
  match messages with
  | [] => mret tt
  | message :: rest =>
      sent_message ← send_message (GROUP_CHAT_ID cfg) message;
      bot_call (PinChatMessage (GROUP_CHAT_ID cfg) sent_message) ;;
      broadcast rest
  end.

Definition post_brand_assets : M unit :=
  broadcast (brand_assets_messages cfg).

End Bot.

(** ** Scenarios *)

(** Successive posts of one text: [observe text posts st] runs
    [check_for_spam] for each (sender, time) of [posts] and collects the
    flagged sets. *)
Fixpoint observe (text : text) (posts : list (Z * Z)) (st : SpamState)
  : list (list Z) * SpamState :=
  match posts with
  | [] => ([], st)
  | (sender, now) :: rest =>
      let '(flagged, st1) := check_for_spam text sender now st in
      let '(flags, st2) := observe text rest st1 in
      (flagged :: flags, st2)
  end.

(** The window of a text, [None] when the key is absent. *)
Definition window (st : SpamState) (text : text) : option (list (Z * Z)) :=
  items <$> SPAM_TRACKER st !! text.

(** Four senders post the same text one second apart. *)
Definition burst : list (Z * Z) :=
  [(1, seconds 0); (2, seconds 1); (3, seconds 2); (4, seconds 3)].

(** Two senders post the same text sixteen seconds apart. *)
Definition slow_posts : list (Z * Z) := [(1, seconds 0); (2, seconds 16)].

(** ** Vocabulary of the properties *)

(** The detector state and the clock of a world replaced. *)
Definition with_detector (st : SpamState) (n : nat) (w : World) : World :=
  {| spam := st; calls := calls w; clock_reads := n |}.

(** The world after the calls [l]. *)
Definition after_calls (w : World) (l : list Call) : World :=
  {| spam := spam w; calls := calls w ++ l; clock_reads := clock_reads w |}.

(** A computation that bypasses the detector: whatever SPAM_TRACKER,
    SPAM_RECORDS and the clock are, it returns the same result and makes
    the same calls [l], all of them in [P], and it leaves the detector state
    and the clock as they were. *)
Definition bypasses_detector {A : Type} (P : Call -> Prop) (m : M A) : Prop :=
  ∀ w, ∃ l, Forall P l ∧
    ∀ st n, m (with_detector st n w) =
            ((m w).1, {| spam := st; calls := calls w ++ l; clock_reads := n |}).

(** Calls that act on a member or a message of the chat. *)
Definition is_moderation (c : Call) : bool :=
  match c with
  | DeleteMessage _ _ | BanChatMember _ _ | RestrictChatMember _ _ _ => true
  | _ => false
  end.

Definition is_restrict (c : Call) : bool :=
  match c with RestrictChatMember _ _ _ => true | _ => false end.

Definition is_send_message (c : Call) : bool :=
  match c with SendMessage _ _ => true | _ => false end.

(** No confirmation of a spam mute (the only [send_message] of
    [check_message]), and no restriction of anyone but [sender]. *)
Definition no_spam_mute (sender : Z) (c : Call) : Prop :=
  match c with
  | SendMessage _ _ => False
  | RestrictChatMember _ user_id _ => user_id = sender
  | _ => True
  end.

(** The first entry of FILTERS whose trigger matches the text. *)
Fixpoint lookup_filter `{uni : Unicode} (message_text : text)
    (filters : list (text * filter_data)) : option filter_data :=
  match filters with
  | [] => None
  | (trigger, fd) :: rest =>
      if trigger_matches message_text trigger then Some fd
      else lookup_filter message_text rest
  end.

(** The response configured by a filter entry: its media when the file
    exists (sent according to its kind), otherwise its response text. *)
Definition configured_response `{uni : Unicode} (plat : Platform) (chat_id : Z)
    (msg : Message.t) (fd : filter_data) : list Call :=
  let response := or_empty (response_text fd) in
  let media_path := path_join MEDIA_FOLDER (or_empty (media fd)) in
  let kind := lower (default (T "gif") (type fd)) in
  let reply := if truthy response
               then [ReplyText (Message.message_id msg) response] else [] in
  if truthy (or_empty (media fd)) && path_exists plat media_path then
    if bool_decide (kind ∈ [(T "gif"); (T "animation")])
    then [SendAnimation chat_id media_path (or_None response)]
    else if bool_decide (kind = (T "image"))
    then [SendPhoto chat_id media_path (or_None response)]
    else if bool_decide (kind = (T "video"))
    then [SendVideo chat_id media_path (or_None response)]
    else []
  else reply.

(** The calls of a run of the broadcast in which nothing fails, made
    after the calls [h]: each message is sent, and the message just sent is
    pinned, under the id that its send returned. *)
Fixpoint broadcast_calls (plat : Platform) (chat_id : Z) (h : list Call)
    (messages : list text) : list Call :=
  match messages with
  | [] => []
  | message :: rest =>
      let send_ := SendMessage chat_id message in
      let pin_ := PinChatMessage chat_id (sent_message_id plat h) in
      send_ :: pin_ :: broadcast_calls plat chat_id (h ++ [send_; pin_]) rest
  end.

(** All the calls of [l], made after the calls [h], succeed. *)
Fixpoint all_succeed (plat : Platform) (h l : list Call) : Prop :=
  match l with
  | [] => True
  | c :: l' => raises plat h c = false ∧ all_succeed plat (h ++ [c]) l'
  end.

(** A run that stops at its first failing call: the calls [l] it made
    after [h] all succeed if it returns, and all but the last succeed if it
    raises. *)
Definition fail_stop (plat : Platform) (h l : list Call) {A} (r : result A) : Prop :=
  match r with
  | Ok _ => all_succeed plat h l
  | Raise e =>
      e = TelegramError ∧
      ∃ l0 c, l = l0 ++ [c] ∧ all_succeed plat h l0 ∧ raises plat (h ++ l0) c = true
  end.

(** *** Concrete worlds *)

Definition rules_filter : filter_data :=
  {| response_text := Some (T "See pinned message.");
     media := None; type := None |}.

Definition cfg0 : Config :=
  {| FILTERS := [((T "rules"), rules_filter)];
     BAN_PHRASES := load_phrases (uni:=ascii_tables) [(T "Scam ")];
     MUTE_PHRASES := load_phrases (uni:=ascii_tables) [(T "airdrop ")];
     DELETE_PHRASES := load_phrases (uni:=ascii_tables) [(T "promo ")];
     WHITELIST_PHRASES := load_phrases (uni:=ascii_tables) [(T "gm ")];
     GROUP_CHAT_ID := -100;
     brand_assets_messages := [(T "logo"); (T "palette")] |}.

(** A platform on which no call fails; user 1 is the administrator. *)
Definition plat0 : Platform :=
  {| raises := fun _ _ => false;
     chat_administrators := fun _ _ => [1];
     sent_message_id := fun h => Z.of_nat (length h);
     path_exists := fun _ => false;
     clock := fun n => seconds (Z.of_nat n) |}.

(** The same platform, on which sending "logo" fails. *)
Definition plat_logo_fails : Platform :=
  {| raises := fun _ c =>
       match c with
       | SendMessage _ text => bool_decide (text = (T "logo"))
       | _ => false
       end;
     chat_administrators := chat_administrators plat0;
     sent_message_id := sent_message_id plat0;
     path_exists := path_exists plat0;
     clock := clock plat0 |}.

Definition alice : User.t := User.mk 1 (T "Alice A") (T "Alice") (Some (T "alice")).
Definition bob : User.t := User.mk 7 (T "Bob") (T "Bob") None.

Definition post (user : User.t) (text : text) : Update :=
  {| message := Some (Message.mk 50 (Some text) 0);
     channel_post := None;
     effective_chat := -100;
     effective_user := Some user |}.

(** A photo: a message without text. *)
Definition photo (user : User.t) : Update :=
  {| message := Some (Message.mk 50 None 0);
     channel_post := None;
     effective_chat := -100;
     effective_user := Some user |}.

(** An update for an edited message: [update.message] and
    [update.channel_post] are both [None]. *)
Definition edited (user : User.t) : Update :=
  {| message := None;
     channel_post := None;
     effective_chat := -100;
     effective_user := Some user |}.

Definition w0 : World := {| spam := empty_spam; calls := []; clock_reads := 0 |}.

(** The world in which the text of the witnesses was flagged at time 0. *)
Definition w_flagged : World :=
  {| spam := {| SPAM_TRACKER := ∅;
                SPAM_RECORDS := {[ (T "free tokens here") := 0 ]} |};
     calls := []; clock_reads := 0 |}.

(** ** The rotating security message (lines 45-63) *)

(** How a run of [post_security_message] ends: the message was sent and
    pinned and [message_index] advanced, or a call raised, or indexing
    [messages] raised IndexError. *)
Inductive job_outcome : Type :=
  | Posted (message_index : nat)
  | PostFailed (e : exn)
  | IndexError.

(** [post_security_message(context)].  [messages] is the list imported from
    [combot.scheduled_warnings]; the global [message_index] is an argument,
    and its new value is carried by [Posted]. *)
Definition post_security_message (cfg : Config) (plat : Platform)
    (messages : list text) (message_index : nat) (w : World)
  : job_outcome * World :=
  match messages !! message_index with
  | None => (IndexError, w)
  | Some message =>
      match send_message plat (GROUP_CHAT_ID cfg) message w with
      | (Raise e, w1) => (PostFailed e, w1)
      | (Ok sent_message, w1) =>
          match bot_call plat (PinChatMessage (GROUP_CHAT_ID cfg) sent_message) w1 with
          | (Raise e, w2) => (PostFailed e, w2)
          | (Ok _, w2) =>
              (Posted ((message_index + 1) mod length messages)%nat, w2)
          end
      end
  end.

(** The value of the global [message_index] after a run. *)
Definition index_after (message_index : nat) (o : job_outcome) : nat :=
  match o with
  | Posted i => i
  | _ => message_index
  end.

(** [n] successive runs of the job, whatever their outcomes. *)
Fixpoint security_runs (cfg : Config) (plat : Platform) (messages : list text)
    (n : nat) (message_index : nat) (w : World) : nat * World :=
  match n with
  | O => (message_index, w)
  | S n' =>
      let '(o, w1) := post_security_message cfg plat messages message_index w in
      security_runs cfg plat messages n' (index_after message_index o) w1
  end.

(** ** The listing of the filters (lines 280-298) *)

Definition newline : text := [10%N].

Fixpoint lstrip_slash (l : text) : text :=
  match l with
  | c :: l' => if N.eqb c 47 then lstrip_slash l' else l
  | [] => []
  end.

(** [k.lstrip('/').lower()], the sort key of line 286. *)
Definition sort_key `{uni : Unicode} (k : text) : text :=
  lower (lstrip_slash k).

(** [a <= b] on the sort keys, strings being compared character by
    character. *)
Definition key_leb `{uni : Unicode} (a b : text) : bool := text_leb (sort_key a)
    (sort_key b).

(** [sorted(keys, key=...)]: Python's sort is stable, and a stable sort has
    one result; it is computed here by insertion from the right, each
    trigger being put before the triggers of equal key that followed it. *)
Fixpoint insert_by_key `{uni : Unicode} (x : text) (l : list text) : list text :=
  match l with
  | [] => [x]
  | y :: l' => if key_leb x y then x :: y :: l' else y :: insert_by_key x l'
  end.

Definition sorted `{uni : Unicode} (keys : list text) : list text :=
  foldr insert_by_key [] keys.

(** [sep.join(l)] *)
Fixpoint join (sep : text) (l : list text) : text :=
  match l with
  | [] => (T "")
  | [x] => x
  | x :: rest => x ++ sep ++ join sep rest
  end.

(** [range(0, n, step)] *)
Definition range_step (n step : nat) : list nat :=
  (fun k => k * step)%nat <$> seq 0 ((n + step - 1) / step)%nat.

(** The slices [formatted_triggers[i:i+80]] of line 295. *)
Definition chunks (formatted_triggers : list text) : list (list text) :=
  (fun i => take 80 (drop i formatted_triggers))
    <$> range_step (length formatted_triggers) 80.

Definition filters_header : text := (T "*Available Filters:*") ++ newline.

(** The texts replied by [list_filters], for the triggers read from the
    filters file. *)
Definition list_filters_replies `{uni : Unicode} (triggers : list text) : list text :=
  let sorted_triggers := sorted triggers in
  let formatted_triggers :=
    (fun trigger => (T "`") ++ trigger ++ (T "`")) <$> sorted_triggers in
  let response := filters_header ++ join newline formatted_triggers in
  if Nat.ltb 4000 (len response)
  then (fun chunk => filters_header ++ join newline chunk)
         <$> chunks formatted_triggers
  else [response].

(** [list_filters(update, context)]: the replies are made to
    [update.message]; the [parse_mode] argument is not recorded. *)
Definition list_filters `{uni : Unicode} (plat : Platform) (triggers : list text)
    (update : Update) : M unit :=
  foldr (fun text k => msg ← attr (message update);
                       reply_text plat msg text ;; k)
        (mret tt) (list_filters_replies triggers).

(** ** More concrete worlds *)

(** A platform on which every call fails. *)
Definition plat_down : Platform :=
  {| raises := fun _ _ => true;
     chat_administrators := chat_administrators plat0;
     sent_message_id := sent_message_id plat0;
     path_exists := path_exists plat0;
     clock := clock plat0 |}.


(** A member whose name contains the keyword "arc". *)
Definition marcus : User.t := User.mk 8 (T "Marcus") (T "Marcus") None.


Definition gif_filter : filter_data :=
  {| response_text := Some (T "hello");
     media := Some (T "hello.gif");
     type := None |}.

Definition security_messages : list text := [(T "one"); (T "two"); (T "three")].

(** ** The patterns on examples *)

Example mult1 : contains_multiplication_phrase (uni:=ascii_tables) (T
    "10x your btc now") = true.
Proof. vm_compute. reflexivity. Qed.
Example mult2 : contains_multiplication_phrase (uni:=ascii_tables) (T
    "get X 1 0 0 today") = true.
Proof. vm_compute. reflexivity. Qed.
Example mult3 : contains_multiplication_phrase (uni:=ascii_tables) (T
    "exactly 10 boxes") = false.
Proof. vm_compute. reflexivity. Qed.
Example trig1 : search (trigger_pattern (uni:=ascii_tables) (T " Rules ")) (T
    "/rules") = true.
Proof. vm_compute. reflexivity. Qed.
Example trig2 : search (trigger_pattern (uni:=ascii_tables) (T "rules")) (T
    "see /rules_en please") = true.
Proof. vm_compute. reflexivity. Qed.
Example trig3 : search (trigger_pattern (uni:=ascii_tables) (T "rules")) (T
    "myrules") = false.
Proof. vm_compute. reflexivity. Qed.
Example phr1 : search (phrase_pattern (uni:=ascii_tables) (T "scam")) (T "a scam!")
    = true.
Proof. vm_compute. reflexivity. Qed.
Example phr2 : search (phrase_pattern (uni:=ascii_tables) (T "scam")) (T "scammer")
    = false.
Proof. vm_compute. reflexivity. Qed.
Example strip1 : strip (uni:=ascii_tables) (T "  a b  ") = (T "a b").
Proof. vm_compute. reflexivity. Qed.
Example str1 : str (-42) = (T "-42").
Proof. vm_compute. reflexivity. Qed.

(** ** The spam detector: properties *)

Section Cleanup.

Variable now : Z.

Lemma cleanup_foldl_None (l : list (text * Z)) (m : gmap text Z) k :
  m !! k = None → foldl (cleanup_step now) m l !! k = None.
Proof.
  revert m. induction l as [|[k' ts'] l IH]; intros m Hk; simpl; [done|].
  apply IH. unfold cleanup_step; simpl. case_bool_decide; [|done].
  destruct (decide (k' = k)) as [->|Hne].
  - apply lookup_delete_eq.
  - by rewrite lookup_delete_ne.
Qed.

Lemma cleanup_foldl_Some (l : list (text * Z)) (m : gmap text Z) k ts :
  foldl (cleanup_step now) m l !! k = Some ts → m !! k = Some ts.
Proof.
  destruct (m !! k) as [v|] eqn:Hm.
  - revert m Hm. induction l as [|[k' ts'] l IH]; intros m Hm; simpl.
    + congruence.
    + unfold cleanup_step at 2; simpl. case_bool_decide; [|by apply IH].
      destruct (decide (k' = k)) as [->|Hne].
      * rewrite cleanup_foldl_None; [done|apply lookup_delete_eq].
      * apply IH. by rewrite lookup_delete_ne.
  - by rewrite cleanup_foldl_None.
Qed.

Lemma cleanup_foldl_expired (l : list (text * Z)) (m : gmap text Z) k ts :
  (k, ts) ∈ l → now - ts > SPAM_RECORD_DURATION →
  foldl (cleanup_step now) m l !! k = None.
Proof.
  revert m. induction l as [|[k' ts'] l IH]; intros m Hin Hold.
  - by apply elem_of_nil in Hin.
  - simpl. apply elem_of_cons in Hin as [Heq|Hin]; [|by apply IH].
    inversion Heq; subst k' ts'. apply cleanup_foldl_None.
    unfold cleanup_step; simpl. rewrite bool_decide_eq_true_2; [|done].
    apply lookup_delete_eq.
Qed.

Lemma cleanup_foldl_kept (l : list (text * Z)) (m : gmap text Z) k :
  (∀ ts, (k, ts) ∈ l → now - ts ≤ SPAM_RECORD_DURATION) →
  foldl (cleanup_step now) m l !! k = m !! k.
Proof.
  revert m. induction l as [|[k' ts'] l IH]; intros m Hl; simpl; [done|].
  rewrite IH.
  - unfold cleanup_step; simpl. case_bool_decide as Hold; [|done].
    destruct (decide (k' = k)) as [->|Hne].
    + specialize (Hl ts' ltac:(left)). lia.
    + by rewrite lookup_delete_ne.
  - intros ts Hin. apply Hl. by right.
Qed.

End Cleanup.

(** C6.  [check_recent_spam] is true exactly when the text has a flag
    record whose age is at most SPAM_RECORD_DURATION, and
    [cleanup_spam_records] keeps exactly the flag records whose age is at
    most SPAM_RECORD_DURATION, with their timestamps, and leaves
    SPAM_TRACKER as it was. *)
Theorem recently_flagged_and_sweep (text : text) (now : Z) (st : SpamState) :
  (check_recent_spam text now st = true ↔
     ∃ ts, SPAM_RECORDS st !! text = Some ts ∧ now - ts ≤ SPAM_RECORD_DURATION)
  ∧ SPAM_TRACKER (cleanup_spam_records now st) = SPAM_TRACKER st
  ∧ (∀ key ts,
       SPAM_RECORDS (cleanup_spam_records now st) !! key = Some ts ↔
       SPAM_RECORDS st !! key = Some ts ∧ ¬ (now - ts > SPAM_RECORD_DURATION)).
Proof.
  split; [|split].
  - unfold check_recent_spam. destruct (SPAM_RECORDS st !! text) as [ts|].
    + rewrite bool_decide_eq_true. split.
      * intros H. by exists ts.
      * intros (ts' & Heq & H). by inversion Heq; subst.
    + split; [done|]. by intros (ts & Heq & _).
  - done.
  - intros key ts. simpl. split.
    + intros Hk. pose proof (cleanup_foldl_Some _ _ _ _ _ Hk) as Hm.
      split; [done|]. intros Hold.
      rewrite (cleanup_foldl_expired now _ _ key ts) in Hk; [done| |done].
      by apply elem_of_map_to_list.
    + intros [Hm Hfresh]. rewrite cleanup_foldl_kept; [done|].
      intros ts' Hin. apply elem_of_map_to_list in Hin.
      assert (ts' = ts) as -> by congruence. lia.
Qed.

(** The entry just appended survives the pruning of line 111, so the
    pruned window of line 112 is never empty when the deque kept it. *)
Lemma deque_append_last (d : deque) (x : Z * Z) :
  items (deque_append d x) = [] ∨ x ∈ items (deque_append d x).
Proof.
  unfold deque_append. destruct (maxlen d) as [m|]; simpl.
  - destruct (Nat.ltb _ _); simpl; [right; set_solver|].
    destruct (items d) as [|y l]; simpl; [by left|right; set_solver].
  - right; set_solver.
Qed.

(** The test of line 125 looks at the oldest entry of the list pruned at
    line 111, which is never older than TIME_WINDOW: the branch of line 127
    is dead, and [check_for_spam] amounts to appending, pruning and
    comparing the length of the pruned window with SPAM_THRESHOLD. *)
Lemma check_for_spam_eq (text : text) (sender now : Z) (st : SpamState) :
  let d := default default_factory (SPAM_TRACKER st !! text) in
  let recent := filter (is_recent now) (items (deque_append d (sender, now))) in
  let tracker := <[text := Deque recent None]> (SPAM_TRACKER st) in
  check_for_spam text sender now st =
  if Nat.leb SPAM_THRESHOLD (length recent)
  then (distinct recent.*1,
        {| SPAM_TRACKER := tracker;
           SPAM_RECORDS := <[text := now]> (SPAM_RECORDS st) |})
  else ([], {| SPAM_TRACKER := tracker; SPAM_RECORDS := SPAM_RECORDS st |}).
Proof.
  intros d recent tracker. unfold check_for_spam.
  assert (∃ t0, tracker_getitem (SPAM_TRACKER st) text = (d, t0)
                ∧ ∀ x, <[text := x]> t0 = <[text := x]> (SPAM_TRACKER st))
    as (t0 & -> & Ht0).
  { unfold tracker_getitem, d. destruct (SPAM_TRACKER st !! text); simpl.
    - by eexists.
    - eexists; split; [done|]. intros x. apply insert_insert_eq. }
  unfold tracker_getitem. rewrite lookup_insert_eq, insert_insert_eq, Ht0.
  fold recent tracker. destruct (Nat.leb _ _); [done|].
  destruct recent as [|oldest l] eqn:Hrecent; [done|].
  assert (is_recent now oldest) as Hrec.
  { assert (oldest ∈ recent) as Hin by (rewrite Hrecent; left).
    by apply list_elem_of_filter in Hin as [? _]. }
  unfold is_recent in Hrec.
  rewrite bool_decide_eq_false_2 by lia. by rewrite andb_false_r.
Qed.

(** The key of the text is present after every call. *)
Lemma check_for_spam_keeps_key (text : text) (sender now : Z) (st : SpamState) :
  is_Some (SPAM_TRACKER (check_for_spam text sender now st).2 !! text).
Proof.
  rewrite check_for_spam_eq.
  destruct (Nat.leb _ _); simpl; rewrite lookup_insert_eq; by eexists.
Qed.

(** C3 at its failing input: four senders post "hi" within three seconds.
    After the first call the window is the unbounded [deque(recent)] of
    line 112, so the fourth post is appended without evicting the first:
    the window holds four entries, one more than SPAM_THRESHOLD. *)
Theorem window_exceeds_threshold :
  window (observe (T "hi") burst empty_spam).2 (T "hi") = Some burst
  ∧ (SPAM_THRESHOLD < length burst)%nat
  ∧ maxlen <$> SPAM_TRACKER (observe (T "hi") burst empty_spam).2 !! (T "hi")
    = Some None.
Proof. vm_compute. split; [reflexivity|]. split; [lia|reflexivity]. Qed.

(** C4 at its failing input: two senders post "hello" sixteen seconds
    apart.  Neither call flags anyone, but the key is still in SPAM_TRACKER
    afterwards, holding the second post. *)
Theorem stale_key_not_dropped :
  (observe (T "hello") slow_posts empty_spam).1 = [[]; []]
  ∧ window (observe (T "hello") slow_posts empty_spam).2 (T "hello")
    = Some [(2, seconds 16)].
Proof. vm_compute. split; reflexivity. Qed.

(** ** The pipeline: running the monad *)

Lemma after_calls_nil (w : World) : after_calls w [] = w.
Proof. destruct w. unfold after_calls; simpl. by rewrite app_nil_r. Qed.

Lemma after_calls_app (w : World) (l1 l2 : list Call) :
  after_calls (after_calls w l1) l2 = after_calls w (l1 ++ l2).
Proof. unfold after_calls; simpl. by rewrite app_assoc. Qed.

Lemma bind_Ok {A B} (m : M A) (f : A -> M B) w a w1 :
  m w = (Ok a, w1) → (m ≫= f) w = f a w1.
Proof. intros H. unfold mbind, M_bind. by rewrite H. Qed.

Lemma bind_Raise {A B} (m : M A) (f : A -> M B) w e w1 :
  m w = (Raise e, w1) → (m ≫= f) w = (Raise e, w1).
Proof. intros H. unfold mbind, M_bind. by rewrite H. Qed.

Lemma ret_bind {A B} (a : A) (f : A -> M B) w : (mret a ≫= f) w = f a w.
Proof. reflexivity. Qed.

Lemma attr_Some_bind {A B} (a : A) (f : A -> M B) : (attr (Some a) ≫= f) = f a.
Proof. reflexivity. Qed.

Section BotProperties.

Context `{uni : Unicode} (cfg : Config) (plat : Platform).

Lemma bot_call_run (c : Call) (w : World) :
  bot_call plat c w =
  (if raises plat (calls w) c then Raise TelegramError else Ok tt,
   after_calls w [c]).
Proof. unfold bot_call, after_calls. by destruct (raises _ _ _). Qed.

Lemma bot_call_then {A} (c : Call) (k : M A) (w : World) :
  (bot_call plat c ;; k) w =
  if raises plat (calls w) c then (Raise TelegramError, after_calls w [c])
  else k (after_calls w [c]).
Proof.
  unfold mbind, M_bind. rewrite bot_call_run. by destruct (raises _ _ _).
Qed.

Lemma respond_run chat_id msg fd w :
  (respond plat chat_id msg fd w).2
  = after_calls w (configured_response plat chat_id msg fd).
Proof.
  unfold respond, configured_response, reply_text.
  destruct (truthy (or_empty (media fd))); simpl;
    [destruct (path_exists plat _); simpl|];
    repeat (case_match; simpl);
    rewrite ?bot_call_run; simpl; by rewrite ?after_calls_nil.
Qed.

Lemma filter_responses_run chat_id msg text filters w :
  (filter_responses plat chat_id msg text filters w).2
  = after_calls w
      (from_option (configured_response plat chat_id msg) []
                   (lookup_filter text filters)).
Proof.
  induction filters as [|[trigger fd] rest IH]; simpl.
  - by rewrite after_calls_nil.
  - destruct (trigger_matches text trigger); simpl; [apply respond_run|done].
Qed.

Lemma configured_response_no_moderation chat_id msg fd :
  Forall (fun c => is_moderation c = false)
         (configured_response plat chat_id msg fd).
Proof.
  unfold configured_response.
  repeat (case_match; simpl); repeat constructor.
Qed.

(** A message with a non-empty text, from a known user, in a chat whose
    administrators can be fetched, reaches the test of line 171. *)
Lemma check_message_reaches_admin_test upd user msg t w :
  effective_user upd = Some user →
  incoming upd = Some msg →
  Message.text msg = Some t →
  truthy t = true →
  raises plat (calls w) (GetChatAdministrators (effective_chat upd)) = false →
  check_message cfg plat upd w =
  (f ← (if negb (bool_decide
                   (User.id user
                    ∈ chat_administrators plat (calls w) (effective_chat upd)))
        then moderate cfg plat (effective_chat upd) user msg (lower t)
        else mret Next);
   match f with
   | Done => mret tt
   | Next => filter_responses plat (effective_chat upd) msg (lower t) (FILTERS cfg)
   end) (after_calls w [GetChatAdministrators (effective_chat upd)]).
Proof.
  intros Hu Hm Ht Htruthy Hok. unfold check_message.
  rewrite Hu, Hm. unfold mbind, M_bind, attr at 1 2. rewrite Ht. unfold attr.
  unfold get_chat_administrators. rewrite bot_call_then, Hok.
  cbn [mret M_ret]. by rewrite Htruthy.
Qed.

End BotProperties.

(** Line 161 calls [lower] on the text before the guard of line 167 is
    reached: a message whose text is [None] makes [check_message] raise,
    whatever the configuration, the platform and the world. *)
Lemma textless_message_always_raises `{uni : Unicode} cfg plat mid date cp chat user w :
  check_message cfg plat
    {| message := Some (Message.mk mid None date); channel_post := cp;
       effective_chat := chat; effective_user := Some user |} w
  = (Raise AttributeError, w).
Proof. reflexivity. Qed.

(** C7 at its failing inputs: a photo (a message whose text is [None]) sent
    by a member, and an update that carries neither a message nor a channel
    post.  [check_message] raises AttributeError instead of returning; it
    makes no call and leaves the detector as it was. *)
Theorem textless_message_raises :
  check_message (uni:=ascii_tables) cfg0 plat0 (photo bob) w0 = (Raise
      AttributeError, w0)
  ∧ check_message (uni:=ascii_tables) cfg0 plat0 (edited bob) w0 = (Raise
      AttributeError, w0).
Proof. split; reflexivity. Qed.

(** C8, counterexample: the administrator of the chat posts the one-letter
    text "a"; the only call made is the fetch of the administrators, the
    message is not deleted. *)
Lemma short_admin_message_not_deleted :
  (len (strip (uni:=ascii_tables) (T "a")) < 2)%nat
  ∧ User.id alice ∈ chat_administrators plat0 [] (-100)
  ∧ check_message (uni:=ascii_tables) cfg0 plat0 (post alice (T "a")) w0
    = (Ok tt, after_calls w0 [GetChatAdministrators (-100)])
  ∧ DeleteMessage (-100) 50
    ∉ calls (check_message (uni:=ascii_tables) cfg0 plat0 (post alice (T "a")) w0).2.
Proof.
  split; [vm_compute; lia|]. split; [vm_compute; left|].
  split; [reflexivity|]. vm_compute. by intros ?%list_elem_of_singleton.
Qed.

(** C8, amended.  A message with a non-empty text whose trimmed length is
    under 2 characters is deleted, and nothing else is done, when its
    sender is not an administrator; the check sits inside the block that
    administrators skip, so for an administrator no moderation call is made
    (only the filter responses may follow). *)
Theorem short_text_deleted_for_non_admins `{uni : Unicode} cfg plat upd user msg t w :
  effective_user upd = Some user →
  incoming upd = Some msg →
  Message.text msg = Some t →
  truthy t = true →
  (len (strip (lower t)) < 2)%nat →
  raises plat (calls w) (GetChatAdministrators (effective_chat upd)) = false →
  let chat := effective_chat upd in
  let w' := (check_message cfg plat upd w).2 in
  if bool_decide (User.id user ∈ chat_administrators plat (calls w) chat)
  then ∃ l, w' = after_calls w (GetChatAdministrators chat :: l)
            ∧ Forall (fun c => is_moderation c = false) l
  else w' = after_calls w [GetChatAdministrators chat;
                           DeleteMessage chat (Message.message_id msg)].
Proof.
  intros Hu Hm Ht Htruthy Hshort Hok chat w'. subst w'.
  rewrite (check_message_reaches_admin_test _ _ _ _ _ _ _ Hu Hm Ht Htruthy Hok).
  fold chat. case_bool_decide as Hadmin; cbn [negb].
  - rewrite ret_bind, filter_responses_run, after_calls_app.
    eexists; split; [reflexivity|].
    destruct (lookup_filter _ _); simpl;
      [apply configured_response_no_moderation|constructor].
  - apply Nat.ltb_lt in Hshort.
    set (w1 := after_calls w [GetChatAdministrators chat]).
    set (del := DeleteMessage chat (Message.message_id msg)).
    assert (moderate cfg plat chat user msg (lower t) w1
            = (if raises plat (calls w1) del
               then Raise TelegramError else Ok Done, after_calls w1 [del]))
      as Hmod.
    { unfold moderate. rewrite Hshort. cbv iota. unfold delete_message.
      rewrite bot_call_then. fold del.
      destruct (raises plat (calls w1) del); reflexivity. }
    destruct (raises plat (calls w1) del).
    + rewrite (bind_Raise _ _ _ _ _ Hmod). apply after_calls_app.
    + rewrite (bind_Ok _ _ _ _ _ Hmod). apply after_calls_app.
Qed.

(** A member posts a single space: the message is deleted. *)
Lemma short_text_deleted_for_non_admins_witness :
  (check_message (uni:=ascii_tables) cfg0 plat0 (post bob (T " ")) w0).2
  = after_calls w0 [GetChatAdministrators (-100); DeleteMessage (-100) 50].
Proof.
  apply (short_text_deleted_for_non_admins (uni:=ascii_tables) cfg0 plat0 (post bob
      (T " ")) bob
           (Message.mk 50 (Some (T " ")) 0) (T " ") w0);
    try reflexivity.
  vm_compute; lia.
Defined.

(** ** The brand-assets broadcast *)

Section Broadcast.

Context `{uni : Unicode} (cfg : Config) (plat : Platform).

Lemma send_message_run chat_id text w :
  send_message plat chat_id text w =
  (if raises plat (calls w) (SendMessage chat_id text)
   then Raise TelegramError else Ok (sent_message_id plat (calls w)),
   after_calls w [SendMessage chat_id text]).
Proof.
  unfold send_message. rewrite bot_call_then.
  destruct (raises plat (calls w) _); reflexivity.
Qed.

Lemma all_succeed_app h l1 l2 :
  all_succeed plat h l1 → all_succeed plat (h ++ l1) l2 →
  all_succeed plat h (l1 ++ l2).
Proof.
  revert h. induction l1 as [|c l1 IH]; intros h H1 H2; simpl in *.
  - by rewrite app_nil_r in H2.
  - destruct H1 as [Hc H1]. split; [done|]. apply IH; [done|].
    by rewrite <- app_assoc.
Qed.

Lemma fail_stop_app {A} h l1 l2 (r : result A) :
  all_succeed plat h l1 → fail_stop plat (h ++ l1) l2 r →
  fail_stop plat h (l1 ++ l2) r.
Proof.
  intros H1 H2. destruct r as [a|e]; simpl in *.
  - by apply all_succeed_app.
  - destruct H2 as (-> & l0 & c & -> & Hl0 & Hc). split; [done|].
    exists (l1 ++ l0), c. split; [by rewrite app_assoc|].
    split; [by apply all_succeed_app|by rewrite app_assoc].
Qed.

Lemma broadcast_cons m rest w :
  let send_ := SendMessage (GROUP_CHAT_ID cfg) m in
  let pin_ := PinChatMessage (GROUP_CHAT_ID cfg) (sent_message_id plat (calls w)) in
  broadcast cfg plat (m :: rest) w =
  if raises plat (calls w) send_
  then (Raise TelegramError, after_calls w [send_])
  else if raises plat (calls w ++ [send_]) pin_
       then (Raise TelegramError, after_calls w [send_; pin_])
       else broadcast cfg plat rest (after_calls w [send_; pin_]).
Proof.
  intros send_ pin_. cbn [broadcast]. unfold mbind, M_bind.
  rewrite send_message_run. fold send_.
  destruct (raises plat (calls w) send_); [done|].
  rewrite bot_call_run. fold pin_.
  change (calls (after_calls w [send_])) with (calls w ++ [send_]).
  rewrite after_calls_app.
  destruct (raises plat (calls w ++ [send_]) pin_); reflexivity.
Qed.

Lemma broadcast_run messages w :
  ∃ l, (broadcast cfg plat messages w).2 = after_calls w l
       ∧ fail_stop plat (calls w) l (broadcast cfg plat messages w).1
       ∧ List.filter is_send_message l
         `prefix_of` (SendMessage (GROUP_CHAT_ID cfg) <$> messages)
       ∧ ((broadcast cfg plat messages w).1 = Ok tt →
          List.filter is_send_message l
          = SendMessage (GROUP_CHAT_ID cfg) <$> messages)
       ∧ l `prefix_of` broadcast_calls plat (GROUP_CHAT_ID cfg) (calls w) messages
       ∧ ((broadcast cfg plat messages w).1 = Ok tt →
          l = broadcast_calls plat (GROUP_CHAT_ID cfg) (calls w) messages).
Proof.
  revert w. induction messages as [|m rest IH]; intros w.
  - exists []. simpl. rewrite after_calls_nil. by repeat split.
  - rewrite broadcast_cons. cbn [broadcast_calls].
    set (send_ := SendMessage (GROUP_CHAT_ID cfg) m).
    set (pin_ := PinChatMessage (GROUP_CHAT_ID cfg)
                   (sent_message_id plat (calls w))).
    destruct (raises plat (calls w) send_) eqn:Hsend.
    { exists [send_]. simpl. split; [done|]. split.
      - split; [done|]. exists [], send_. by rewrite app_nil_r.
      - split; [by exists (SendMessage (GROUP_CHAT_ID cfg) <$> rest)|].
        split; [done|]. split; [|done]. by eexists. }
    destruct (raises plat (calls w ++ [send_]) pin_) eqn:Hpin.
    { exists [send_; pin_]. simpl. split; [done|]. split.
      - split; [done|]. exists [send_], pin_. simpl. by repeat split.
      - split; [by exists (SendMessage (GROUP_CHAT_ID cfg) <$> rest)|].
        split; [done|]. split; [|done]. by eexists. }
    destruct (IH (after_calls w [send_; pin_]))
      as (l & Hw & Hfs & Hpre & Hall & Hcalls & Hfull).
    exists ([send_; pin_] ++ l). split; [|split; [|split; [|split; [|split]]]].
    + rewrite Hw. by rewrite !after_calls_app.
    + apply fail_stop_app; [|exact Hfs].
      simpl. by repeat split.
    + destruct Hpre as [k Hk]. exists k. rewrite fmap_cons, Hk. reflexivity.
    + intros Hr. rewrite fmap_cons, <- (Hall Hr). reflexivity.
    + destruct Hcalls as [k Hk]. exists k. simpl in *. by rewrite Hk.
    + intros Hr. simpl in *. by rewrite <- (Hfull Hr).
Qed.

End Broadcast.

(** C10, counterexample: the broadcast of "logo" and "palette" on a
    platform where sending "logo" fails.  The run raises after its first
    call; "palette" is never sent. *)
Lemma broadcast_aborted_by_failure :
  (T "palette") ∈ brand_assets_messages cfg0
  ∧ post_brand_assets cfg0 plat_logo_fails w0
    = (Raise TelegramError, after_calls w0 [SendMessage (-100) (T "logo")])
  ∧ SendMessage (-100) (T "palette")
    ∉ calls (post_brand_assets cfg0 plat_logo_fails w0).2.
Proof.
  split; [vm_compute; set_solver|]. split; [reflexivity|].
  vm_compute. by intros ?%list_elem_of_singleton.
Qed.

(** C10, amended.  In each run of the brand-assets broadcast the messages
    are sent in the order of the sequence, each followed by its pin, and the
    run stops at its first failing call.  The calls of the run are a prefix
    of the sequence send, pin, send, pin, ... over the messages, each pin
    naming the message that the send before it returned; when the run
    raises, the failing send or pin is its last call and no later message is
    attempted; when it returns, no call failed and the calls are the whole
    sequence: every message was sent and pinned. *)
Theorem broadcast_stops_at_first_failure cfg plat w :
  ∃ l, (post_brand_assets cfg plat w).2 = after_calls w l
       ∧ fail_stop plat (calls w) l (post_brand_assets cfg plat w).1
       ∧ List.filter is_send_message l
         `prefix_of` (SendMessage (GROUP_CHAT_ID cfg) <$> brand_assets_messages cfg)
       ∧ ((post_brand_assets cfg plat w).1 = Ok tt →
          List.filter is_send_message l
          = SendMessage (GROUP_CHAT_ID cfg) <$> brand_assets_messages cfg)
       ∧ l `prefix_of` broadcast_calls plat (GROUP_CHAT_ID cfg) (calls w)
                                       (brand_assets_messages cfg)
       ∧ ((post_brand_assets cfg plat w).1 = Ok tt →
          l = broadcast_calls plat (GROUP_CHAT_ID cfg) (calls w)
                              (brand_assets_messages cfg)).
Proof. apply broadcast_run. Qed.

(** ** Administrators *)



(** ** Messages exempt from the spam check *)

Section Exempt.

Context `{uni : Unicode} (cfg : Config) (plat : Platform).

(** What the phrase checks of lines 225-251 do: their first call is the
    ban when a ban phrase matches, else the restriction when a mute phrase
    matches, else the deletion when a delete phrase matches; they fall
    through, without a call, when no phrase matches. *)
Lemma phrase_checks_run chat user msg text w :
  let ban := existsb (phrase_matches text) (BAN_PHRASES cfg) in
  let mute := existsb (phrase_matches text) (MUTE_PHRASES cfg) in
  let del := existsb (phrase_matches text) (DELETE_PHRASES cfg) in
  ∃ l, (phrase_checks cfg plat chat user msg text w).2 = after_calls w l
    ∧ (ban = true → head l = Some (BanChatMember chat (User.id user)))
    ∧ (ban = false → mute = true →
       head l = Some (RestrictChatMember chat (User.id user) (mute_until msg)))
    ∧ (ban = false → mute = false → del = true →
       l = [DeleteMessage chat (Message.message_id msg)])
    ∧ ((phrase_checks cfg plat chat user msg text w).1 = Ok Next →
       ban = false ∧ mute = false ∧ del = false ∧ l = []).
Proof.
  intros ban mute del. unfold phrase_checks.
  fold ban mute del. destruct ban, mute, del;
    unfold ban_chat_member, restrict_chat_member, delete_message, reply_text;
    rewrite ?bot_call_then;
    repeat (match goal with
            | |- context [raises plat ?h ?c] => destruct (raises plat h c)
            end);
    cbn [mret M_ret fst snd]; rewrite ?after_calls_app;
    try (eexists; split; [reflexivity|]; repeat split; done).
  all: exists []; rewrite after_calls_nil; repeat split; done.
Qed.

(** Under the exemption, lines 173-251 reduce to the phrase checks. *)
Lemma moderate_exempt chat user msg text :
  Nat.ltb (len (strip text)) 2 = false →
  has_suspicious_name user = false →
  contains_multiplication_phrase text = false →
  should_skip_spam_check cfg text = true →
  ∀ w, moderate cfg plat chat user msg text w
       = phrase_checks cfg plat chat user msg text w.
Proof.
  intros Hlen Hname Hmult Hskip w. unfold moderate.
  rewrite Hlen, Hname, Hmult, Hskip. cbv iota beta delta [negb].
  unfold mbind, M_bind, mret, M_ret.
  destruct (phrase_checks cfg plat chat user msg text w) as [[[]|]]; reflexivity.
Qed.

End Exempt.

(** C1, counterexample: a member posts "rules scam"; "rules" is a filter
    trigger and "scam" a ban phrase.  The message is exempt from the spam
    check, yet the ban-phrase check is evaluated and the member is banned. *)
Lemma exempt_message_still_banned :
  existsb (trigger_matches (uni:=ascii_tables) (T "rules scam")) (FILTERS cfg0).*1
  = true
  ∧ (User.id bob ∉ chat_administrators plat0 [] (-100))
  ∧ check_message (uni:=ascii_tables) cfg0 plat0 (post bob (T "rules scam")) w0
    = (Ok tt, after_calls w0
         [GetChatAdministrators (-100); BanChatMember (-100) 7;
          ReplyText 50 (T "arc angel fallen. Bob has been banned.")]).
Proof.
  split; [reflexivity|]. split; [|reflexivity].
  vm_compute. by intros ?%list_elem_of_singleton.
Qed.

(** C1, amended.  For a non-administrator message that reaches line 189
    and whose text matches a filter trigger or is, trimmed, a whitelist
    phrase, the spam detector is not consulted (its state and the clock are
    left as they were), and the pipeline continues with the ban-phrase check,
    then the mute-phrase check, then the delete-phrase check, all of which
    are evaluated. *)
Theorem exempt_message_skips_only_spam_check `{uni : Unicode} cfg plat upd user msg
    t w :
  effective_user upd = Some user →
  incoming upd = Some msg →
  Message.text msg = Some t →
  truthy t = true →
  raises plat (calls w) (GetChatAdministrators (effective_chat upd)) = false →
  User.id user ∉ chat_administrators plat (calls w) (effective_chat upd) →
  Nat.ltb (len (strip (lower t))) 2 = false →
  has_suspicious_name user = false →
  contains_multiplication_phrase (lower t) = false →
  existsb (trigger_matches (lower t)) (FILTERS cfg).*1 = true
  ∨ strip (lower t) ∈ WHITELIST_PHRASES cfg →
  let chat := effective_chat upd in
  let ban := existsb (phrase_matches (lower t)) (BAN_PHRASES cfg) in
  let mute := existsb (phrase_matches (lower t)) (MUTE_PHRASES cfg) in
  let del := existsb (phrase_matches (lower t)) (DELETE_PHRASES cfg) in
  ∃ l, (check_message cfg plat upd w).2
       = after_calls w (GetChatAdministrators chat :: l)
    ∧ (ban = true → head l = Some (BanChatMember chat (User.id user)))
    ∧ (ban = false → mute = true →
       head l = Some (RestrictChatMember chat (User.id user) (mute_until msg)))
    ∧ (ban = false → mute = false → del = true →
       l = [DeleteMessage chat (Message.message_id msg)]).
Proof.
  intros Hu Hm Ht Htruthy Hok Hadmin Hlen Hname Hmult Hexempt chat ban mute del.
  assert (should_skip_spam_check cfg (lower t) = true) as Hskip.
  { unfold should_skip_spam_check. destruct (existsb _ _); [done|].
    destruct Hexempt as [?|Hin]; [done|]. by apply bool_decide_eq_true_2. }
  rewrite (check_message_reaches_admin_test _ _ _ _ _ _ _ Hu Hm Ht Htruthy Hok).
  rewrite bool_decide_eq_false_2 by done. cbv iota beta delta [negb].
  fold chat. set (w1 := after_calls w [GetChatAdministrators chat]).
  unfold mbind, M_bind. rewrite (moderate_exempt cfg plat) by done.
  destruct (phrase_checks_run cfg plat chat user msg (lower t) w1)
    as (l & Hw & Hban & Hmute & Hdel & Hnext).
  fold ban mute del in Hban, Hmute, Hdel, Hnext.
  destruct (phrase_checks cfg plat chat user msg (lower t) w1) as [[[|]|e] w2];
    simpl in Hw, Hnext; subst w2 w1.
  - exists l. cbn [mret M_ret snd]. by rewrite after_calls_app.
  - destruct (Hnext eq_refl) as (Eb & Em & Ed & ->).
    rewrite filter_responses_run, !after_calls_app.
    eexists; split; [reflexivity|]. rewrite Eb, Em, Ed. by repeat split.
  - exists l. cbn [snd]. by rewrite after_calls_app.
Qed.

(** The member of the counterexample: the ban is the first call after the
    fetch of the administrators. *)
Lemma exempt_message_skips_only_spam_check_witness :
  ∃ l, (check_message (uni:=ascii_tables) cfg0 plat0 (post bob (T "rules scam")) w0).2
       = after_calls w0 (GetChatAdministrators (-100) :: l)
    ∧ (true = true → head l = Some (BanChatMember (-100) 7))
    ∧ (true = false → false = true →
       head l = Some (RestrictChatMember (-100) 7 (seconds MUTE_DURATION)))
    ∧ (true = false → false = false → false = true →
       l = [DeleteMessage (-100) 50]).
Proof.
  apply (exempt_message_skips_only_spam_check (uni:=ascii_tables) cfg0 plat0 (post
      bob (T "rules scam"))
           bob (Message.mk 50 (Some (T "rules scam")) 0) (T "rules scam") w0);
    try reflexivity.
  - vm_compute. by intros ?%list_elem_of_singleton.
  - left. reflexivity.
Defined.

(** ** Computations that bypass the detector *)

Section Bypass.

Context `{uni : Unicode} (cfg : Config) (plat : Platform) (P : Call -> Prop).

Lemma with_detector_same w : with_detector (spam w) (clock_reads w) w = w.
Proof. by destruct w. Qed.

(** The world a bypassing computation ends in. *)
Lemma bypass_world {A} (m : M A) w l :
  (∀ st n, m (with_detector st n w) =
           ((m w).1, {| spam := st; calls := calls w ++ l; clock_reads := n |})) →
  (m w).2 = after_calls w l.
Proof.
  intros H. specialize (H (spam w) (clock_reads w)).
  rewrite with_detector_same in H. by rewrite H at 1.
Qed.

Lemma bypass_ret {A} (a : A) : bypasses_detector P (mret a : M A).
Proof. intros w. exists []. split; [constructor|]. intros st n.
  unfold with_detector; simpl. by rewrite app_nil_r. Qed.

Lemma bypass_attr {A} (o : option A) : bypasses_detector P (attr o).
Proof. intros w. exists []. split; [constructor|]. intros st n.
  unfold attr, with_detector; destruct o; simpl; by rewrite app_nil_r. Qed.

Lemma bypass_call c : P c → bypasses_detector P (bot_call plat c).
Proof. intros Hc w. exists [c]. split; [by constructor|]. intros st n.
  unfold bot_call, with_detector; simpl. by destruct (raises _ _ _). Qed.

Lemma bypass_get_chat_administrators chat :
  P (GetChatAdministrators chat) →
  bypasses_detector P (get_chat_administrators plat chat).
Proof. intros Hc w. exists [GetChatAdministrators chat].
  split; [by constructor|]. intros st n.
  unfold get_chat_administrators. rewrite !bot_call_then.
  unfold with_detector; simpl. by destruct (raises _ _ _). Qed.

Lemma bypass_bind {A B} (m : M A) (f : A -> M B) :
  bypasses_detector P m → (∀ a, bypasses_detector P (f a)) →
  bypasses_detector P (m ≫= f).
Proof.
  intros Hm Hf w. destruct (Hm w) as (l1 & Hl1 & H1).
  pose proof (bypass_world m w l1 H1) as Hw1.
  unfold mbind, M_bind. destruct (m w) as [[a|e] w1] eqn:Emw; simpl in *.
  - subst w1. destruct (Hf a (after_calls w l1)) as (l2 & Hl2 & H2).
    exists (l1 ++ l2). split; [by apply Forall_app|]. intros st n.
    rewrite H1. specialize (H2 st n). unfold with_detector in H2; simpl in H2.
    rewrite H2. by rewrite app_assoc.
  - exists l1. split; [done|]. intros st n. by rewrite H1.
Qed.

End Bypass.

Section FilterMatch.

Context `{uni : Unicode} (cfg : Config) (plat : Platform) (sender : Z).

Lemma bypass_respond chat msg fd :
  bypasses_detector (no_spam_mute sender) (respond plat chat msg fd).
Proof.
  unfold respond, reply_text.
  repeat case_match; first [apply bypass_ret | by apply bypass_call].
Qed.

Lemma bypass_filter_responses chat msg text filters :
  bypasses_detector (no_spam_mute sender) (filter_responses plat chat msg text filters).
Proof.
  induction filters as [|[trigger fd] rest IH]; simpl.
  - apply bypass_ret.
  - destruct (trigger_matches text trigger); [apply bypass_respond|done].
Qed.

Lemma bypass_phrase_checks chat user msg text :
  User.id user = sender →
  bypasses_detector (no_spam_mute sender) (phrase_checks cfg plat chat user msg text).
Proof.
  intros Hid. unfold phrase_checks, ban_chat_member, restrict_chat_member,
    delete_message, reply_text.
  repeat case_match;
    repeat (first [apply bypass_ret | apply bypass_call; simpl; done
                  | apply bypass_bind; [|intros ?]]).
Qed.

(** Lines 173-251 for a text exempt from the spam check. *)
Lemma bypass_moderate chat user msg text :
  User.id user = sender →
  should_skip_spam_check cfg text = true →
  bypasses_detector (no_spam_mute sender) (moderate cfg plat chat user msg text).
Proof.
  intros Hid Hskip. unfold moderate, ban_chat_member, delete_message.
  rewrite Hskip. cbv iota beta delta [negb].
  repeat case_match;
    repeat (first [apply bypass_ret | apply bypass_call; simpl; done
                  | apply bypass_phrase_checks; done
                  | apply bypass_bind; [|intros []]]).
Qed.

End FilterMatch.

(** C9.  When the text of a message matches a filter trigger, the run of
    [check_message] bypasses the spam detector: whatever SPAM_TRACKER,
    SPAM_RECORDS and the clock hold (in particular whether or not the same
    text is already in the spam window), the run returns the same result
    and makes the same calls, it leaves SPAM_TRACKER and SPAM_RECORDS as they
    were and does not read the clock, and none of its calls is the
    confirmation of a spam mute or the restriction of another sender. *)
Theorem filter_match_bypasses_detector `{uni : Unicode} cfg plat upd user msg t :
  effective_user upd = Some user →
  incoming upd = Some msg →
  Message.text msg = Some t →
  existsb (trigger_matches (lower t)) (FILTERS cfg).*1 = true →
  bypasses_detector (no_spam_mute (User.id user)) (check_message cfg plat upd).
Proof.
  intros Hu Hm Ht Hmatch. unfold check_message.
  rewrite Hu, Hm, attr_Some_bind, attr_Some_bind, Ht, attr_Some_bind.
  apply bypass_bind; [by apply bypass_get_chat_administrators|intros admin_ids].
  destruct (truthy t); simpl; [|apply bypass_ret].
  apply bypass_bind.
  - destruct (negb _); [|apply bypass_ret].
    apply bypass_moderate; [done|].
    unfold should_skip_spam_check. by rewrite Hmatch.
  - intros [|]; [apply bypass_ret|apply bypass_filter_responses].
Qed.

(** A member posts "/rules". *)
Lemma filter_match_bypasses_detector_witness :
  bypasses_detector (no_spam_mute 7) (check_message (uni:=ascii_tables) cfg0 plat0
      (post bob (T "/rules"))).
Proof.
  apply (filter_match_bypasses_detector (uni:=ascii_tables) cfg0 plat0 (post bob (T
      "/rules")) bob
           (Message.mk 50 (Some (T "/rules")) 0) (T "/rules"));
    reflexivity.
Defined.

(** ** Senders of a flagged text *)

Lemma elem_of_distinct (x : Z) (ids : list Z) : x ∈ distinct ids ↔ x ∈ ids.
Proof. unfold distinct. by rewrite elem_of_elements, elem_of_list_to_set. Qed.

Lemma NoDup_distinct (ids : list Z) : NoDup (distinct ids).
Proof. unfold distinct. apply NoDup_elements. Qed.

(** What [check_for_spam] hands to line 209: either nobody is flagged and
    SPAM_RECORDS is as before, or the sender is among the flagged. *)
Lemma check_for_spam_sender text sender now st :
  ((check_for_spam text sender now st).1 = []
   ∧ SPAM_RECORDS (check_for_spam text sender now st).2 = SPAM_RECORDS st)
  ∨ sender ∈ (check_for_spam text sender now st).1.
Proof.
  rewrite check_for_spam_eq.
  set (d := default default_factory (SPAM_TRACKER st !! text)).
  destruct (Nat.leb _ _) eqn:Hlen; simpl; [right|by left].
  apply elem_of_distinct.
  apply (list_elem_of_fmap_2' fst _ (sender, now)); [|done].
  apply list_elem_of_filter. split.
  - unfold is_recent; simpl. rewrite Z.sub_diag. by vm_compute.
  - destruct (deque_append_last d (sender, now)) as [Hnil|Hin]; [|done].
    rewrite Hnil in Hlen. by vm_compute in Hlen.
Qed.

Section Mute.

Context `{uni : Unicode} (cfg : Config) (plat : Platform).

(** The loop of lines 214-222 never raises, and makes one restriction per
    spammer, in order. *)
Lemma mute_spammers_run chat msg ids w :
  ∃ l, mute_spammers plat chat msg ids w = (Ok tt, after_calls w l)
       ∧ List.filter is_restrict l
         = (fun s => RestrictChatMember chat s (mute_until msg)) <$> ids.
Proof.
  revert w. induction ids as [|s rest IH]; intros w.
  - exists []. by rewrite after_calls_nil.
  - cbn [mute_spammers]. unfold mbind, M_bind, try_except, restrict_chat_member.
    rewrite bot_call_run.
    destruct (raises plat (calls w) _).
    + destruct (IH (after_calls w [RestrictChatMember chat s (mute_until msg)]))
        as (l & -> & Hl).
      eexists. rewrite after_calls_app. split; [reflexivity|].
      simpl. by rewrite Hl.
    + rewrite send_message_run.
      set (w2 := after_calls (after_calls w _) _).
      destruct (raises plat _ (SendMessage _ _)); simpl.
      * destruct (IH w2) as (l & -> & Hl). subst w2.
        eexists. rewrite !after_calls_app. split; [reflexivity|].
        simpl. by rewrite Hl.
      * destruct (IH w2) as (l & -> & Hl). subst w2.
        eexists. rewrite !after_calls_app. split; [reflexivity|].
        simpl. by rewrite Hl.
Qed.

End Mute.

Section Flagged.

Context `{uni : Unicode} (cfg : Config) (plat : Platform).

(** Lines 207-223 as one step on the world. *)
Lemma spam_check_run chat sender msg text w :
  let now := clock plat (clock_reads w) in
  let now' := clock plat (S (clock_reads w)) in
  let r := check_for_spam text sender now (spam w) in
  let flagged := check_recent_spam text now' r.2 in
  let spammer_ids :=
    if flagged && negb (bool_decide (sender ∈ r.1))
    then r.1 ++ [sender] else r.1 in
  let w2 := {| spam := r.2; calls := calls w;
               clock_reads := S (S (clock_reads w)) |} in
  spam_check plat chat sender msg text w =
  match spammer_ids with
  | [] => (Ok Next, w2)
  | _ => (mute_spammers plat chat msg (distinct spammer_ids) ;; mret Done) w2
  end.
Proof.
  intros now now' r flagged spammer_ids w2.
  unfold spam_check, mbind, M_bind, datetime_now, on_spam. cbn [spam calls clock_reads].
  fold now now'. fold r. destruct r as [ids st1] eqn:Hr. cbn [spam calls clock_reads].
  subst flagged spammer_ids w2. cbn [fst snd].
  subst now'.
  match goal with |- context [distinct ?x] => generalize x end.
  intros [|s0 rest]; reflexivity.
Qed.

(** C5.  A member posts a text that has a flag record whose age, at the
    clock reading of [check_recent_spam], is at most SPAM_RECORD_DURATION,
    and the message reaches the spam check of line 207.  Then the run
    restricts a duplicate-free list of senders that contains the member:
    the member is muted, and muted once, whether or not the window of the
    text reaches SPAM_THRESHOLD. *)
Theorem flagged_text_mutes_sender_once upd user msg t w ts :
  effective_user upd = Some user →
  incoming upd = Some msg →
  Message.text msg = Some t →
  truthy t = true →
  raises plat (calls w) (GetChatAdministrators (effective_chat upd)) = false →
  User.id user ∉ chat_administrators plat (calls w) (effective_chat upd) →
  Nat.ltb (len (strip (lower t))) 2 = false →
  has_suspicious_name user = false →
  contains_multiplication_phrase (lower t) = false →
  existsb (trigger_matches (lower t)) (FILTERS cfg).*1 = false →
  strip (lower t) ∉ WHITELIST_PHRASES cfg →
  SPAM_RECORDS (spam w) !! lower t = Some ts →
  clock plat (S (clock_reads w)) - ts ≤ SPAM_RECORD_DURATION →
  let chat := effective_chat upd in
  ∃ muted l,
    NoDup muted ∧ User.id user ∈ muted
    ∧ calls (check_message cfg plat upd w).2
      = calls w ++ GetChatAdministrators chat :: l
    ∧ List.filter is_restrict l
      = (fun s => RestrictChatMember chat s (mute_until msg)) <$> muted.
Proof.
  intros Hu Hm Ht Htruthy Hok Hadmin Hlen Hname Hmult Htrig Hwl Hrec Hage chat.
  assert (should_skip_spam_check cfg (lower t) = false) as Hskip.
  { unfold should_skip_spam_check. rewrite Htrig.
    by apply bool_decide_eq_false_2. }
  rewrite (check_message_reaches_admin_test _ _ _ _ _ _ _ Hu Hm Ht Htruthy Hok).
  rewrite bool_decide_eq_false_2 by done. cbv iota beta delta [negb].
  fold chat. set (w1 := after_calls w [GetChatAdministrators chat]).
  unfold moderate. rewrite Hlen, Hname, Hmult, Hskip. cbv iota beta delta [negb].
  unfold mbind at 1 2, M_bind at 1 2. rewrite spam_check_run.
  cbn [spam calls clock_reads w1 after_calls].
  set (r := check_for_spam (lower t) (User.id user) (clock plat (clock_reads w))
              (spam w)).
  match goal with
  | |- context [distinct ?ids] => set (spammer_ids := ids)
  end.
  assert (User.id user ∈ spammer_ids) as Hin.
  { subst spammer_ids.
    destruct (check_for_spam_sender (lower t) (User.id user)
                (clock plat (clock_reads w)) (spam w)) as [[Hnil Hsame]|Hflag];
      fold r in Hnil, Hsame || fold r in Hflag.
    - unfold check_recent_spam. rewrite Hsame, Hrec, Hnil.
      rewrite bool_decide_eq_true_2 by done.
      rewrite (bool_decide_eq_false_2 (User.id user ∈ [])) by apply not_elem_of_nil.
      simpl. left.
    - rewrite (bool_decide_eq_true_2 _ Hflag). by rewrite andb_false_r. }
  destruct spammer_ids as [|s0 rest] eqn:Hids; [by apply elem_of_nil in Hin|].
  rewrite <- Hids in *. clear Hids.
  unfold mbind, M_bind.
  match goal with
  | |- context [mute_spammers plat chat msg ?ids ?w2] =>
      destruct (mute_spammers_run plat chat msg ids w2) as (l & -> & Hl)
  end.
  exists (distinct spammer_ids), l. cbn [mret M_ret fst snd calls after_calls].
  split; [apply NoDup_distinct|]. split; [by apply elem_of_distinct|].
  split; [|done]. by rewrite <- app_assoc.
Qed.

End Flagged.

(** A member posts, one second after the flag, a text flagged at time 0
    whose window is empty. *)
Lemma flagged_text_mutes_sender_once_witness :
  ∃ muted l,
    NoDup muted ∧ 7 ∈ muted
    ∧ calls (check_message (uni:=ascii_tables) cfg0 plat0 (post bob (T
        "free tokens here")) w_flagged).2
      = [] ++ GetChatAdministrators (-100) :: l
    ∧ List.filter is_restrict l
      = (fun s => RestrictChatMember (-100) s (seconds MUTE_DURATION)) <$> muted.
Proof.
  apply (flagged_text_mutes_sender_once (uni:=ascii_tables) cfg0 plat0 (post bob (T
      "free tokens here"))
           bob (Message.mk 50 (Some (T "free tokens here")) 0)
           (T "free tokens here") w_flagged 0);
    try reflexivity.
  - vm_compute. by intros ?%list_elem_of_singleton.
  - vm_compute. by intros ?%list_elem_of_singleton.
  - vm_compute. discriminate.
Defined.

(** * Further properties of the code *)

(** ** The spam detector *)

(** X1.  A call of [check_for_spam] for one text leaves the window and the
    flag record of every other text as they were. *)
Theorem check_for_spam_frame text other sender now st :
  other ≠ text →
  SPAM_TRACKER (check_for_spam text sender now st).2 !! other
  = SPAM_TRACKER st !! other
  ∧ SPAM_RECORDS (check_for_spam text sender now st).2 !! other
    = SPAM_RECORDS st !! other.
Proof.
  intros Hne. rewrite check_for_spam_eq.
  destruct (Nat.leb _ _); simpl; by rewrite !lookup_insert_ne.
Qed.

(** Posting "b" leaves the window and the record of "a" alone. *)
Lemma check_for_spam_frame_witness :
  SPAM_TRACKER (check_for_spam (T "b") 1 0 empty_spam).2 !! (T "a")
  = SPAM_TRACKER empty_spam !! (T "a")
  ∧ SPAM_RECORDS (check_for_spam (T "b") 1 0 empty_spam).2 !! (T "a")
    = SPAM_RECORDS empty_spam !! (T "a").
Proof. apply (check_for_spam_frame (T "b") (T "a") 1 0 empty_spam). discriminate.
    Defined.

(** X2.  After a call of [check_for_spam] the window of the text is an
    unbounded deque all of whose entries are within TIME_WINDOW of the
    clock reading of the call. *)
Theorem check_for_spam_prunes text sender now st :
  ∃ win, SPAM_TRACKER (check_for_spam text sender now st).2 !! text
         = Some (Deque win None)
         ∧ Forall (fun entry => now - entry.2 ≤ TIME_WINDOW) win.
Proof.
  rewrite check_for_spam_eq. eexists. split.
  - destruct (Nat.leb _ _); simpl; apply lookup_insert_eq.
  - apply Forall_forall. intros entry Hin.
    by apply list_elem_of_filter in Hin as [? _].
Qed.

(** X3.  [check_for_spam] flags somebody exactly when the pruned window
    holds at least SPAM_THRESHOLD entries.  It then returns, without
    duplicates, exactly the senders of the entries of the window, and
    records the flag at the clock reading of the call; otherwise
    SPAM_RECORDS is left as it was. *)
Theorem check_for_spam_flags text sender now st :
  let r := check_for_spam text sender now st in
  ∃ win, window r.2 text = Some win
    ∧ (r.1 ≠ [] ↔ (SPAM_THRESHOLD ≤ length win)%nat)
    ∧ NoDup r.1
    ∧ (r.1 ≠ [] →
       (∀ x, x ∈ r.1 ↔ ∃ t, (x, t) ∈ win)
       ∧ SPAM_RECORDS r.2 = <[text := now]> (SPAM_RECORDS st))
    ∧ (r.1 = [] → SPAM_RECORDS r.2 = SPAM_RECORDS st).
Proof.
  intros r. subst r. unfold window. rewrite check_for_spam_eq.
  set (recent := filter _ _).
  exists recent. destruct (Nat.leb _ _) eqn:Hlen; simpl;
    rewrite lookup_insert_eq; simpl.
  - apply Nat.leb_le in Hlen.
    assert (∀ x, x ∈ distinct recent.*1 ↔ ∃ t, (x, t) ∈ recent) as Hset.
    { intros x. rewrite elem_of_distinct, list_elem_of_fmap. split.
      - intros ([y t] & -> & Hin). by exists t.
      - intros (t & Hin). by exists (x, t). }
    assert (distinct recent.*1 ≠ []) as Hne.
    { destruct recent as [|[x t] l] eqn:E; [by vm_compute in Hlen; lia|].
      intros Hnil. assert (x ∈ distinct ((x, t) :: l).*1) as Hx
        by (apply Hset; exists t; left).
      rewrite Hnil in Hx. by apply elem_of_nil in Hx. }
    split; [done|]. split; [done|]. split; [apply NoDup_distinct|].
    split; [done|]. by intros Hnil.
  - apply Nat.leb_gt in Hlen.
    split; [done|]. split; [split; [done|lia]|]. split; [constructor|].
    split; [done|done].
Qed.

(** X4.  Three posts of a text that had no window, each within
    TIME_WINDOW of the last one: the first two calls flag nobody, the third
    returns exactly the senders of the three posts (whether or not they are
    distinct) and records the flag at the time of the third post. *)
Theorem three_posts_flag_senders text s1 t1 s2 t2 s3 t3 st :
  SPAM_TRACKER st !! text = None →
  t2 - t1 ≤ TIME_WINDOW → t3 - t1 ≤ TIME_WINDOW → t3 - t2 ≤ TIME_WINDOW →
  ∃ ids, (observe text [(s1, t1); (s2, t2); (s3, t3)] st).1 = [[]; []; ids]
    ∧ (∀ x, x ∈ ids ↔ x ∈ [s1; s2; s3])
    ∧ SPAM_RECORDS (observe text [(s1, t1); (s2, t2); (s3, t3)] st).2 !! text
      = Some t3.
Proof.
  intros Hnone H21 H31 H32.
  assert (0 ≤ TIME_WINDOW) as H0 by (by vm_compute).
  cbn [observe].
  rewrite (check_for_spam_eq text s1 t1 st), Hnone. simpl.
  rewrite filter_cons_True by (unfold is_recent; simpl; lia).
  rewrite filter_nil. simpl.
  rewrite check_for_spam_eq. cbn [SPAM_TRACKER SPAM_RECORDS].
  rewrite lookup_insert_eq. simpl.
  rewrite !filter_cons_True by (unfold is_recent; simpl; lia).
  rewrite filter_nil. simpl.
  rewrite check_for_spam_eq. cbn [SPAM_TRACKER SPAM_RECORDS].
  rewrite lookup_insert_eq. simpl.
  rewrite !filter_cons_True by (unfold is_recent; simpl; lia).
  rewrite filter_nil. simpl.
  eexists. split; [reflexivity|]. split.
  - intros x. by rewrite elem_of_distinct.
  - apply lookup_insert_eq.
Qed.

(** One sender posts the same text three times within two seconds. *)
Lemma three_posts_flag_senders_witness :
  ∃ ids, (observe (T "hi") [(5, seconds 0); (5, seconds 1); (5, seconds 2)]
            empty_spam).1 = [[]; []; ids]
    ∧ (∀ x, x ∈ ids ↔ x ∈ [5; 5; 5])
    ∧ SPAM_RECORDS (observe (T "hi") [(5, seconds 0); (5, seconds 1); (5, seconds 2)]
                      empty_spam).2 !! (T "hi")
      = Some (seconds 2).
Proof.
  apply (three_posts_flag_senders (T "hi") 5 (seconds 0) 5 (seconds 1) 5 (seconds 2)
           empty_spam); [reflexivity|vm_compute; discriminate..].
Defined.

(** The records kept by [cleanup_spam_records], key by key. *)
Lemma cleanup_records_lookup now st key :
  SPAM_RECORDS (cleanup_spam_records now st) !! key
  = match SPAM_RECORDS st !! key with
    | Some ts => if bool_decide (now - ts > SPAM_RECORD_DURATION)
                 then None else Some ts
    | None => None
    end.
Proof.
  simpl. destruct (SPAM_RECORDS st !! key) as [ts|] eqn:Hk.
  - case_bool_decide as Hold.
    + apply (cleanup_foldl_expired now _ _ key ts); [|done].
      by apply elem_of_map_to_list.
    + rewrite cleanup_foldl_kept; [done|].
      intros ts' Hin. apply elem_of_map_to_list in Hin.
      assert (ts' = ts) as -> by congruence. lia.
  - by apply cleanup_foldl_None.
Qed.

(** X5.  The sweep is invisible to the pipeline: at the time of the sweep
    and at any later time, [check_recent_spam] answers the same with and
    without the sweep. *)
Theorem cleanup_invisible text now now' st :
  now ≤ now' →
  check_recent_spam text now' (cleanup_spam_records now st)
  = check_recent_spam text now' st.
Proof.
  intros Hle. unfold check_recent_spam. rewrite cleanup_records_lookup.
  destruct (SPAM_RECORDS st !! text) as [ts|]; [|done].
  case_bool_decide as Hold; [|done].
  symmetry. apply bool_decide_eq_false. lia.
Qed.

(** A record made at time 0, swept after six minutes and read after
    seven. *)
Lemma cleanup_invisible_witness :
  check_recent_spam (T "free tokens here") (minutes 7)
    (cleanup_spam_records (minutes 6) (spam w_flagged))
  = check_recent_spam (T "free tokens here") (minutes 7) (spam w_flagged).
Proof.
  apply (cleanup_invisible (T "free tokens here") (minutes 6) (minutes 7)
           (spam w_flagged)).
  vm_compute; discriminate.
Defined.

Lemma SpamState_eq (st1 st2 : SpamState) :
  SPAM_TRACKER st1 = SPAM_TRACKER st2 → SPAM_RECORDS st1 = SPAM_RECORDS st2 →
  st1 = st2.
Proof. destruct st1, st2; simpl; by intros -> ->. Qed.

(** X6.  A sweep followed by a later sweep amounts to the later sweep; in
    particular sweeping twice at the same time is sweeping once. *)
Theorem cleanup_twice now now' st :
  now ≤ now' →
  cleanup_spam_records now' (cleanup_spam_records now st)
  = cleanup_spam_records now' st.
Proof.
  intros Hle. apply SpamState_eq; [done|]. apply map_eq. intros key.
  rewrite !cleanup_records_lookup.
  destruct (SPAM_RECORDS st !! key) as [ts|]; [|done].
  repeat case_bool_decide; try done; lia.
Qed.

Lemma cleanup_twice_witness :
  cleanup_spam_records (minutes 6) (cleanup_spam_records (minutes 6) (spam w_flagged))
  = cleanup_spam_records (minutes 6) (spam w_flagged).
Proof.
  apply (cleanup_twice (minutes 6) (minutes 6) (spam w_flagged)). reflexivity.
Defined.

(** X7.  Once a call of [check_for_spam] has flagged a text,
    [check_recent_spam] is true for that text exactly until
    SPAM_RECORD_DURATION has elapsed since the flagging call. *)
Theorem flag_lasts_record_duration text sender now now' st :
  (check_for_spam text sender now st).1 ≠ [] →
  (check_recent_spam text now' (check_for_spam text sender now st).2 = true
   ↔ now' - now ≤ SPAM_RECORD_DURATION).
Proof.
  rewrite check_for_spam_eq. destruct (Nat.leb _ _); simpl; [|done].
  intros _. unfold check_recent_spam; simpl. rewrite lookup_insert_eq.
  apply bool_decide_eq_true.
Qed.

(** Two posts in the window, then a third one. *)
Lemma flag_lasts_record_duration_witness :
  check_recent_spam (T "hi") (minutes 1)
    (check_for_spam (T "hi") 3 (seconds 2)
       (observe (T "hi") [(1, seconds 0); (2, seconds 1)] empty_spam).2).2 = true
  ↔ minutes 1 - seconds 2 ≤ SPAM_RECORD_DURATION.
Proof.
  apply (flag_lasts_record_duration (T "hi") 3 (seconds 2) (minutes 1)
           (observe (T "hi") [(1, seconds 0); (2, seconds 1)] empty_spam).2).
  vm_compute; discriminate.
Defined.

(** ** The pipeline *)

Section PipelineSteps.

Context `{uni : Unicode} (cfg : Config) (plat : Platform).

Lemma call_then_done_run (c : Call) (w : World) :
  (bot_call plat c ;; mret Done) w
  = (if raises plat (calls w) c then Raise TelegramError else Ok Done,
     after_calls w [c]).
Proof. rewrite bot_call_then. by destruct (raises plat (calls w) c). Qed.

(** A block that ends the function, followed by the filter responses. *)
Lemma moderation_ends_run (m : M flow) (k : M unit) w r w' :
  m w = (r, w') → r ≠ Ok Next →
  (f ← m; match f with Done => mret tt | Next => k end) w
  = (match r with Ok _ => Ok tt | Raise e => Raise e end, w').
Proof.
  intros Hm Hr. unfold mbind, M_bind. rewrite Hm.
  by destruct r as [[|]|e].
Qed.

(** X8.  When the administrators of the chat cannot be fetched,
    [check_message] raises after that single call: nothing is moderated,
    nothing is answered, and the detector is left as it was. *)
Theorem admin_lookup_failure_aborts upd user msg t w :
  effective_user upd = Some user →
  incoming upd = Some msg →
  Message.text msg = Some t →
  raises plat (calls w) (GetChatAdministrators (effective_chat upd)) = true →
  check_message cfg plat upd w
  = (Raise TelegramError,
     after_calls w [GetChatAdministrators (effective_chat upd)]).
Proof.
  intros Hu Hm Ht Hfail. unfold check_message.
  rewrite Hu, Hm, attr_Some_bind, attr_Some_bind, Ht, attr_Some_bind.
  unfold get_chat_administrators, mbind, M_bind.
  rewrite bot_call_run, Hfail. reflexivity.
Qed.

(** X9.  A message whose text is the empty string is skipped by the guard
    of line 167, after the administrators were fetched: [check_message]
    returns without any other call, for administrators and members alike. *)
Theorem empty_text_skipped upd user msg w :
  effective_user upd = Some user →
  incoming upd = Some msg →
  Message.text msg = Some (T "") →
  raises plat (calls w) (GetChatAdministrators (effective_chat upd)) = false →
  check_message cfg plat upd w
  = (Ok tt, after_calls w [GetChatAdministrators (effective_chat upd)]).
Proof.
  intros Hu Hm Ht Hok. unfold check_message.
  rewrite Hu, Hm, attr_Some_bind, attr_Some_bind, Ht, attr_Some_bind.
  unfold get_chat_administrators, mbind, M_bind.
  rewrite bot_call_run, Hok. reflexivity.
Qed.

(** X10.  A member whose lowered full name and username contain one of
    SUSPICIOUS_USERNAMES as a substring is banned for any message of at
    least two characters, and nothing else is done: the text is neither
    observed by the detector nor matched against the phrases and filters. *)
Theorem suspicious_name_banned upd user msg t w :
  effective_user upd = Some user →
  incoming upd = Some msg →
  Message.text msg = Some t →
  truthy t = true →
  raises plat (calls w) (GetChatAdministrators (effective_chat upd)) = false →
  User.id user ∉ chat_administrators plat (calls w) (effective_chat upd) →
  Nat.ltb (len (strip (lower t))) 2 = false →
  has_suspicious_name user = true →
  let chat := effective_chat upd in
  (check_message cfg plat upd w).2
  = after_calls w [GetChatAdministrators chat; BanChatMember chat (User.id user)].
Proof.
  intros Hu Hm Ht Htruthy Hok Hadmin Hlen Hname chat.
  rewrite (check_message_reaches_admin_test _ _ _ _ _ _ _ Hu Hm Ht Htruthy Hok).
  rewrite bool_decide_eq_false_2 by done. cbv iota beta delta [negb].
  fold chat. set (w1 := after_calls w [GetChatAdministrators chat]).
  set (ban := BanChatMember chat (User.id user)).
  assert (moderate cfg plat chat user msg (lower t) w1
          = (if raises plat (calls w1) ban
             then Raise TelegramError else Ok Done, after_calls w1 [ban]))
    as Hmod.
  { unfold moderate. rewrite Hlen, Hname. cbv iota.
    unfold ban_chat_member. apply call_then_done_run. }
  rewrite (moderation_ends_run _ _ _ _ _ Hmod).
  - apply after_calls_app.
  - by destruct (raises plat (calls w1) ban).
Qed.

(** X11.  A member's message of at least two characters that contains the
    multiplication pattern is deleted, and nothing else is done. *)
Theorem multiplication_deleted upd user msg t w :
  effective_user upd = Some user →
  incoming upd = Some msg →
  Message.text msg = Some t →
  truthy t = true →
  raises plat (calls w) (GetChatAdministrators (effective_chat upd)) = false →
  User.id user ∉ chat_administrators plat (calls w) (effective_chat upd) →
  Nat.ltb (len (strip (lower t))) 2 = false →
  has_suspicious_name user = false →
  contains_multiplication_phrase (lower t) = true →
  let chat := effective_chat upd in
  (check_message cfg plat upd w).2
  = after_calls w [GetChatAdministrators chat;
                   DeleteMessage chat (Message.message_id msg)].
Proof.
  intros Hu Hm Ht Htruthy Hok Hadmin Hlen Hname Hmult chat.
  rewrite (check_message_reaches_admin_test _ _ _ _ _ _ _ Hu Hm Ht Htruthy Hok).
  rewrite bool_decide_eq_false_2 by done. cbv iota beta delta [negb].
  fold chat. set (w1 := after_calls w [GetChatAdministrators chat]).
  set (del := DeleteMessage chat (Message.message_id msg)).
  assert (moderate cfg plat chat user msg (lower t) w1
          = (if raises plat (calls w1) del
             then Raise TelegramError else Ok Done, after_calls w1 [del]))
    as Hmod.
  { unfold moderate. rewrite Hlen, Hname, Hmult. cbv iota.
    unfold delete_message. apply call_then_done_run. }
  rewrite (moderation_ends_run _ _ _ _ _ Hmod).
  - apply after_calls_app.
  - by destruct (raises plat (calls w1) del).
Qed.

End PipelineSteps.

Lemma admin_lookup_failure_aborts_witness :
  check_message (uni:=ascii_tables) cfg0 plat_down (post bob (T "hello")) w0
  = (Raise TelegramError, after_calls w0 [GetChatAdministrators (-100)]).
Proof.
  apply (admin_lookup_failure_aborts (uni:=ascii_tables) cfg0 plat_down (post bob
      (T "hello")) bob
           (Message.mk 50 (Some (T "hello")) 0) (T "hello") w0); reflexivity.
Defined.

Lemma empty_text_skipped_witness :
  check_message (uni:=ascii_tables) cfg0 plat0 (post bob (T "")) w0
  = (Ok tt, after_calls w0 [GetChatAdministrators (-100)]).
Proof.
  apply (empty_text_skipped (uni:=ascii_tables) cfg0 plat0 (post bob (T "")) bob
           (Message.mk 50 (Some (T "")) 0) w0); reflexivity.
Defined.

(** "Marcus" contains "arc". *)
Lemma suspicious_name_banned_witness :
  (check_message (uni:=ascii_tables) cfg0 plat0 (post marcus (T "hello")) w0).2
  = after_calls w0 [GetChatAdministrators (-100); BanChatMember (-100) 8].
Proof.
  apply (suspicious_name_banned (uni:=ascii_tables) cfg0 plat0 (post marcus (T
      "hello")) marcus
           (Message.mk 50 (Some (T "hello")) 0) (T "hello") w0);
    try reflexivity.
  vm_compute. by intros ?%list_elem_of_singleton.
Defined.

Lemma multiplication_deleted_witness :
  (check_message (uni:=ascii_tables) cfg0 plat0 (post bob (T "10X your btc now")) w0).2
  = after_calls w0 [GetChatAdministrators (-100); DeleteMessage (-100) 50].
Proof.
  apply (multiplication_deleted (uni:=ascii_tables) cfg0 plat0 (post bob (T
      "10X your btc now")) bob
           (Message.mk 50 (Some (T "10X your btc now")) 0)
           (T "10X your btc now") w0);
    try reflexivity.
  vm_compute. by intros ?%list_elem_of_singleton.
Defined.

Section PipelineBlocks.

Context `{uni : Unicode} (cfg : Config) (plat : Platform).

(** X12.  The loop that mutes the spammers never raises: whichever
    restrictions or confirmations fail, every spammer of the list gets its
    restriction call, in order, and the loop makes no other call than
    restrictions and their confirmations. *)
Theorem mute_spammers_never_raises chat msg ids w :
  ∃ l, mute_spammers plat chat msg ids w = (Ok tt, after_calls w l)
       ∧ List.filter is_restrict l
         = (fun s => RestrictChatMember chat s (mute_until msg)) <$> ids
       ∧ Forall (fun c => is_restrict c = true ∨ is_send_message c = true) l.
Proof.
  revert w. induction ids as [|s rest IH]; intros w.
  - exists []. rewrite after_calls_nil. by repeat split.
  - cbn [mute_spammers]. unfold mbind, M_bind, try_except, restrict_chat_member.
    rewrite bot_call_run.
    destruct (raises plat (calls w) _).
    + destruct (IH (after_calls w [RestrictChatMember chat s (mute_until msg)]))
        as (l & -> & Hl & Hall).
      eexists. rewrite after_calls_app. split; [reflexivity|].
      split; [simpl; by rewrite Hl|]. constructor; [by left|done].
    + rewrite send_message_run.
      set (w2 := after_calls (after_calls w _) _).
      destruct (raises plat _ (SendMessage _ _)); simpl;
        destruct (IH w2) as (l & -> & Hl & Hall); subst w2;
        (eexists; rewrite !after_calls_app; split; [reflexivity|];
         split; [simpl; by rewrite Hl|];
         constructor; [by left|]; constructor; [by right|done]).
Qed.

(** X13.  The loop over FILTERS answers at most once, never with a
    moderation call, makes no call at all when no trigger matches the text,
    and leaves the detector and the clock as they were. *)
Theorem filter_responses_at_most_once chat msg text filters w :
  ∃ l, (filter_responses plat chat msg text filters w).2 = after_calls w l
       ∧ (length l ≤ 1)%nat
       ∧ Forall (fun c => is_moderation c = false) l
       ∧ (existsb (trigger_matches text) filters.*1 = false → l = []).
Proof.
  rewrite filter_responses_run. eexists. split; [reflexivity|].
  assert (lookup_filter text filters = None
          ∨ existsb (trigger_matches text) filters.*1 = true) as Hcase.
  { induction filters as [|[trigger fd] rest IH]; simpl; [by left|].
    destruct (trigger_matches text trigger); simpl; [by right|done]. }
  destruct (lookup_filter text filters) as [fd|] eqn:Hfd; simpl.
  - split; [|split; [apply configured_response_no_moderation|]].
    + unfold configured_response. repeat (case_match; simpl); lia.
    + destruct Hcase as [?|Hex]; [done|]. by rewrite Hex.
  - split; [lia|]. by split.
Qed.


(** X15.  A filter whose media file is missing is answered with its
    response text, as a reply to the message. *)
Theorem missing_media_falls_back_to_text chat msg fd w :
  path_exists plat (path_join MEDIA_FOLDER (or_empty (media fd))) = false →
  truthy (or_empty (response_text fd)) = true →
  respond plat chat msg fd w
  = bot_call plat (ReplyText (Message.message_id msg)
                             (or_empty (response_text fd))) w.
Proof.
  intros Hmissing Htext. unfold respond, reply_text.
  rewrite Hmissing, Htext. by destruct (truthy (or_empty (media fd))).
Qed.

(** X16.  The phrase checks take at most one moderation action, chosen in
    the order ban, mute, delete: the ban when a ban phrase matches, whatever
    the other lists hold; else the restriction when a mute phrase matches;
    else the deletion when a delete phrase matches; and no call at all when
    no phrase matches. *)
Theorem phrase_checks_precedence chat user msg text w :
  let ban := existsb (phrase_matches text) (BAN_PHRASES cfg) in
  let mute := existsb (phrase_matches text) (MUTE_PHRASES cfg) in
  let del := existsb (phrase_matches text) (DELETE_PHRASES cfg) in
  ∃ l, (phrase_checks cfg plat chat user msg text w).2 = after_calls w l
    ∧ List.filter is_moderation l
      = (if ban then [BanChatMember chat (User.id user)]
         else if mute
              then [RestrictChatMember chat (User.id user) (mute_until msg)]
              else if del then [DeleteMessage chat (Message.message_id msg)]
                   else [])
    ∧ (ban || mute || del = false → l = []).
Proof.
  intros ban mute del. unfold phrase_checks.
  fold ban mute del. destruct ban, mute, del;
    unfold ban_chat_member, restrict_chat_member, delete_message, reply_text;
    rewrite ?bot_call_then;
    repeat (match goal with
            | |- context [raises plat ?h ?c] => destruct (raises plat h c)
            end);
    cbn [mret M_ret fst snd]; rewrite ?after_calls_app;
    try (eexists; split; [reflexivity|]; split; [reflexivity|done]).
  all: exists []; rewrite after_calls_nil; by repeat split.
Qed.

(** X17.  The first post of a text that has neither a window nor a flag
    record, by a member whose message reaches the spam check, is observed
    and flags nobody: the window of the text becomes the single entry made
    of the sender and the first clock reading, SPAM_RECORDS is left as it
    was, and the clock was read twice. *)
Theorem first_post_observed upd user msg t w :
  effective_user upd = Some user →
  incoming upd = Some msg →
  Message.text msg = Some t →
  truthy t = true →
  raises plat (calls w) (GetChatAdministrators (effective_chat upd)) = false →
  User.id user ∉ chat_administrators plat (calls w) (effective_chat upd) →
  Nat.ltb (len (strip (lower t))) 2 = false →
  has_suspicious_name user = false →
  contains_multiplication_phrase (lower t) = false →
  existsb (trigger_matches (lower t)) (FILTERS cfg).*1 = false →
  strip (lower t) ∉ WHITELIST_PHRASES cfg →
  SPAM_TRACKER (spam w) !! lower t = None →
  SPAM_RECORDS (spam w) !! lower t = None →
  let w' := (check_message cfg plat upd w).2 in
  spam w'
  = {| SPAM_TRACKER :=
         <[lower t := Deque [(User.id user, clock plat (clock_reads w))] None]>
           (SPAM_TRACKER (spam w));
       SPAM_RECORDS := SPAM_RECORDS (spam w) |}
  ∧ clock_reads w' = S (S (clock_reads w)).
Proof.
  intros Hu Hm Ht Htruthy Hok Hadmin Hlen Hname Hmult Htrig Hwl Hwin Hrec w'.
  assert (should_skip_spam_check cfg (lower t) = false) as Hskip.
  { unfold should_skip_spam_check. rewrite Htrig.
    by apply bool_decide_eq_false_2. }
  subst w'.
  cut (∃ l, (check_message cfg plat upd w).2
            = after_calls
                {| spam :=
                     {| SPAM_TRACKER :=
                          <[lower t := Deque [(User.id user,
                                               clock plat (clock_reads w))] None]>
                            (SPAM_TRACKER (spam w));
                        SPAM_RECORDS := SPAM_RECORDS (spam w) |};
                   calls := calls w; clock_reads := S (S (clock_reads w)) |} l).
  { intros [l ->]. by split. }
  rewrite (check_message_reaches_admin_test _ _ _ _ _ _ _ Hu Hm Ht Htruthy Hok).
  rewrite bool_decide_eq_false_2 by done. cbv iota beta delta [negb].
  set (chat := effective_chat upd).
  set (w1 := after_calls w [GetChatAdministrators chat]).
  unfold moderate. rewrite Hlen, Hname, Hmult, Hskip. cbv iota beta delta [negb].
  unfold mbind, M_bind. rewrite spam_check_run.
  cbn [spam calls clock_reads w1 after_calls].
  rewrite check_for_spam_eq, Hwin. simpl.
  rewrite filter_cons_True
    by (unfold is_recent; simpl; rewrite Z.sub_diag; by vm_compute).
  rewrite filter_nil. simpl.
  unfold check_recent_spam at 1. simpl. rewrite Hrec. simpl.
  set (w2 := {| spam := _; calls := calls w ++ _; clock_reads := _ |}).
  destruct (phrase_checks_precedence chat user msg (lower t) w2)
    as (l & Hw & _).
  destruct (phrase_checks cfg plat chat user msg (lower t) w2) as [[[|]|e] w3];
    simpl in Hw; subst w3; cbn [mret M_ret snd];
    rewrite ?filter_responses_run, ?after_calls_app;
    eexists; unfold after_calls, w2; simpl; by rewrite <- app_assoc.
Qed.

End PipelineBlocks.


(** A filter whose file "media/hello.gif" is missing. *)
Lemma missing_media_falls_back_to_text_witness :
  respond (uni:=ascii_tables) plat0 (-100) (Message.mk 50 (Some (T "hello")) 0)
      gif_filter w0
  = bot_call plat0 (ReplyText 50 (T "hello")) w0.
Proof.
  apply (missing_media_falls_back_to_text (uni:=ascii_tables) plat0 (-100)
           (Message.mk 50 (Some (T "hello")) 0) gif_filter w0);
    reflexivity.
Defined.

(** A member posts "hello there" for the first time. *)
Lemma first_post_observed_witness :
  spam (check_message (uni:=ascii_tables) cfg0 plat0 (post bob (T "hello there")) w0).2
  = {| SPAM_TRACKER := <[(T "hello there") := Deque [(7, 0)] None]> ∅;
       SPAM_RECORDS := ∅ |}
  ∧ clock_reads (check_message (uni:=ascii_tables) cfg0 plat0 (post bob (T
      "hello there")) w0).2 = 2%nat.
Proof.
  apply (first_post_observed (uni:=ascii_tables) cfg0 plat0 (post bob (T
      "hello there")) bob
           (Message.mk 50 (Some (T "hello there")) 0) (T "hello there") w0);
    try reflexivity.
  - vm_compute. by intros ?%list_elem_of_singleton.
  - vm_compute. by intros ?%list_elem_of_singleton.
Defined.

(** ** The patterns *)

Section Patterns.

Context `{uni : Unicode}.

Lemma ends_Cat r1 r2 s i j :
  In j (ends (Cat r1 r2) s i) ↔ ∃ k, In k (ends r1 s i) ∧ In j (ends r2 s k).
Proof. simpl. apply in_flat_map. Qed.

Lemma ends_Look p s i j :
  In j (ends (Look p) s i) ↔ j = i ∧ p (char_before s i) (s !! i) = true.
Proof.
  simpl. destruct (p _ _); simpl; [|by intuition].
  split; [intros [->|[]]; done|intros [-> _]; by left].
Qed.

Lemma ends_Chr c s i j :
  In j (ends (Chr c) s i) ↔ j = S i ∧ s !! i = Some c.
Proof.
  unfold Chr. simpl. destruct (s !! i) as [c'|]; simpl; [|by intuition].
  destruct (N.eqb_spec c c') as [->|Hne]; simpl.
  - split; [intros [->|[]]; done|intros [-> _]; by left].
  - split; [done|]. intros [_ Heq]. congruence.
Qed.

Lemma ends_Opt r s i : In i (ends (Opt r) s i).
Proof. unfold Opt. simpl. apply in_or_app. right. by left. Qed.

Lemma star_ends_start f fuel i : In i (star_ends f fuel i).
Proof. destruct fuel; simpl; by left. Qed.

Lemma ends_Star r s i : In i (ends (Star r) s i).
Proof. simpl. apply star_ends_start. Qed.

(** The literal pattern of a string matches at [i] exactly when the
    characters of the string are found there. *)
Lemma ends_Lit (p : text) s i j :
  In j (ends (Lit p) s i)
  ↔ starts_with p (drop i s) = true ∧ j = (i + length p)%nat.
Proof.
  unfold Lit. revert i.
  induction p as [|c l IH]; intros i; cbn [foldr].
  - simpl. rewrite Nat.add_0_r. split; [intros [->|[]]; done|].
    intros [_ ->]. by left.
  - rewrite ends_Cat. split.
    + intros (k & Hk & Hj). apply ends_Chr in Hk as [-> Hc].
      apply IH in Hj as [Hl ->]. rewrite (drop_S _ _ _ Hc). simpl.
      rewrite Hl, N.eqb_refl. split; [done|lia].
    + intros [Hs ->]. destruct (drop i s) as [|c' rest] eqn:Hd; [done|].
      simpl in Hs. apply andb_true_iff in Hs as [Hc Hl].
      apply N.eqb_eq in Hc as <-.
      assert (s !! i = Some c) as Hi.
      { rewrite <- (take_drop i s) at 1. rewrite Hd.
        destruct (decide (i ≤ length s)%nat) as [Hle|Hgt].
        - rewrite lookup_app_r by (rewrite length_take; lia).
          rewrite length_take. by replace (i - i `min` length s)%nat with 0%nat by lia.
        - rewrite drop_ge in Hd by lia. done. }
      exists (S i). split; [by apply ends_Chr|].
      apply IH. rewrite (drop_S _ _ _ Hi) in Hd. inversion Hd; subst rest.
      split; [done|simpl; lia].
Qed.

Lemma occurs_in_drop (p s : text) i :
  starts_with p (drop i s) = true → occurs_in p s = true.
Proof.
  revert i. induction s as [|a s IH]; intros i H.
  - rewrite drop_nil in H. simpl. by rewrite H.
  - destruct i as [|i]; simpl in *.
    + by rewrite H.
    + rewrite (IH i H). apply orb_true_r.
Qed.

Lemma starts_with_app (p q : text) : starts_with p (p ++ q) = true.
Proof.
  induction p as [|c p IH]; simpl; [by destruct q|].
  by rewrite IH, N.eqb_refl.
Qed.

Lemma search_true r (text : text) :
  search r text = true
  ↔ ∃ i j, (i ≤ length text)%nat ∧ In j (ends r text i).
Proof.
  unfold search. rewrite existsb_exists. split.
  - intros (i & Hi & He). apply in_seq in Hi.
    destruct (ends r text i) as [|j l] eqn:E; [done|].
    exists i, j. split; [lia|]. rewrite E. by left.
  - intros (i & j & Hi & Hj). exists i. split; [apply in_seq; lia|].
    by destruct (ends r text i).
Qed.

Lemma search_false r (text : text) :
  (∀ i, ends r text i = []) → search r text = false.
Proof.
  intros H. apply not_true_is_false. intros (i & j & _ & Hj)%search_true.
  by rewrite H in Hj.
Qed.

End Patterns.

(** X18.  A phrase of a block list only matches a text in which it
    occurs: no ban, mute or deletion by phrase without the phrase being a
    substring of the lowered text. *)
Theorem phrase_match_occurs `{uni : Unicode} text phrase :
  phrase_matches text phrase = true → substring_of phrase text = true.
Proof.
  unfold phrase_matches, phrase_pattern, substring_of.
  intros (i & j & _ & Hj)%search_true.
  apply ends_Cat in Hj as (k & _ & Hj). apply ends_Cat in Hj as (k' & Hk' & _).
  apply ends_Lit in Hk' as [Hs _]. by apply occurs_in_drop in Hs.
Qed.

Lemma phrase_match_occurs_witness : substring_of (T "scam") (T "a scam!") = true.
Proof.
  apply (phrase_match_occurs (uni:=ascii_tables) (T "a scam!") (T "scam")).
  reflexivity.
Defined.

(** X19.  A filter trigger only matches a text in which the trimmed,
    lowered trigger occurs. *)
Theorem trigger_match_occurs `{uni : Unicode} text trigger :
  trigger_matches text trigger = true →
  substring_of (lower (strip trigger)) text = true.
Proof.
  unfold trigger_matches, trigger_pattern, substring_of.
  intros (i & j & _ & Hj)%search_true.
  apply ends_Cat in Hj as (k & _ & Hj). apply ends_Cat in Hj as (k' & _ & Hj).
  apply ends_Cat in Hj as (k'' & Hk'' & _).
  apply ends_Lit in Hk'' as [Hs _]. by apply occurs_in_drop in Hs.
Qed.

Lemma trigger_match_occurs_witness :
  substring_of (lower (Unicode:=ascii_tables) (strip (uni:=ascii_tables) (T " Rules ")))
               (T "see /rules_en please") = true.
Proof.
  apply (trigger_match_occurs (uni:=ascii_tables) (T "see /rules_en please")
           (T " Rules ")).
  reflexivity.
Defined.

(** X20.  Every filter answers its own trigger: the trimmed, lowered
    trigger matches, and so does the same text behind a slash. *)
Theorem trigger_matches_itself `{uni : Unicode} trigger :
  trigger_matches (lower (strip trigger)) trigger = true
  ∧ trigger_matches (T "/" ++ lower (strip trigger)) trigger = true.
Proof.
  unfold trigger_matches, trigger_pattern.
  set (norm := lower (strip trigger)). split; apply search_true.
  - exists 0%nat, (length norm). split; [lia|].
    apply ends_Cat. exists 0%nat. split; [by apply ends_Look|].
    apply ends_Cat. exists 0%nat. split; [apply ends_Opt|].
    apply ends_Cat. exists (length norm). split.
    { apply ends_Lit. split; [|done]. rewrite drop_0.
      rewrite <- (app_nil_r norm) at 2. apply starts_with_app. }
    apply ends_Cat. exists (length norm). split; [apply ends_Opt|].
    apply ends_Look. split; [done|].
    by rewrite (lookup_ge_None_2 norm) by lia.
  - change (T "/" ++ norm) with (47%N :: norm).
    exists 0%nat, (S (length norm)). split; [simpl; lia|].
    apply ends_Cat. exists 0%nat. split; [by apply ends_Look|].
    apply ends_Cat. exists 1%nat. split.
    { unfold Opt. simpl. by left. }
    apply ends_Cat. exists (S (length norm)). split.
    { apply ends_Lit. split; [|done]. simpl. rewrite drop_0.
      rewrite <- (app_nil_r norm) at 2. apply starts_with_app. }
    apply ends_Cat. exists (S (length norm)). split; [apply ends_Opt|].
    apply ends_Look. split; [done|].
    by rewrite (lookup_ge_None_2 (47%N :: norm)) by (simpl; lia).
Qed.

Section Multiplication.

Context `{uni : Unicode}.

Lemma flat_map_nil {A B} (f : A -> list B) l :
  (∀ x, f x = []) → flat_map f l = [].
Proof. intros H. induction l as [|x l IH]; simpl; [done|]. by rewrite H, IH. Qed.

(** The digit group of the pattern matches nowhere in a text without
    digits. *)
Lemma no_digit_no_group (s : text) i :
  (∀ c, c ∈ s → re_d c = false) →
  ends (Plus (Cat (Class re_d) (Star (Class re_s)))) s i = [].
Proof.
  intros Hs. unfold Plus. cbn [ends].
  destruct (s !! i) as [c|] eqn:Hi; [|done].
  by rewrite (Hs c) by (by eapply list_elem_of_lookup_2).
Qed.

End Multiplication.

(** X21.  A text whose lower case holds no decimal digit (no character of
    the class [\d]) never contains the multiplication pattern. *)
Theorem multiplication_needs_digit `{uni : Unicode} (text : text) :
  (∀ c, c ∈ lower text → re_d c = false) →
  contains_multiplication_phrase text = false.
Proof.
  intros Hnone. unfold contains_multiplication_phrase, multiplication_pattern.
  apply search_false. intros i.
  pose proof (fun k => no_digit_no_group (lower text) k Hnone) as Hgroup.
  cbn [ends]. cbn [ends] in Hgroup. rewrite Hgroup. simpl.
  apply flat_map_nil. intros k. apply flat_map_nil. intros k'. apply Hgroup.
Qed.

Lemma multiplication_needs_digit_witness :
  contains_multiplication_phrase (uni:=ascii_tables) (T "extra boxes") = false.
Proof.
  apply (multiplication_needs_digit (uni:=ascii_tables) (T "extra boxes")).
  intros c Hc. vm_compute in Hc.
  repeat (apply elem_of_cons in Hc as [->|Hc]; [reflexivity|]).
  by apply elem_of_nil in Hc.
Defined.

(** X22.  A text in which an ASCII digit is directly followed by the
    letter x, in either case, contains the multiplication pattern. *)
Theorem digit_then_x_matches `{uni : Unicode} (text pre : text) d x post :
  text = pre ++ d :: x :: post →
  (48 ≤ d ≤ 57)%N →
  ascii_lower x = 120%N →
  contains_multiplication_phrase text = true.
Proof.
  intros Htext Hd Hx. unfold contains_multiplication_phrase.
  apply search_true.
  assert (Forall (fun c => (c < 128)%N) [d; x]) as Hascii.
  { repeat constructor; [lia|]. unfold ascii_lower, between in Hx.
    destruct (_ && _) eqn:E; [|lia].
    apply andb_true_iff in E as [_ E]. apply N.leb_le in E. lia. }
  destruct (lower_ascii pre [d; x] post Hascii) as (pre' & post' & Hlow).
  simpl in Hlow. rewrite <- Htext in Hlow.
  assert (ascii_lower d = d) as Hdd.
  { unfold ascii_lower, between.
    destruct (_ && _) eqn:E; [|done].
    apply andb_true_iff in E as [E _]. apply N.leb_le in E. lia. }
  rewrite Hdd, Hx in Hlow. set (s := lower text) in *.
  set (i := length pre').
  assert (s !! i = Some d ∧ s !! S i = Some 120%N) as [Hi HSi].
  { rewrite Hlow. subst i. split.
    - by rewrite list_lookup_middle.
    - rewrite (cons_middle d), app_assoc.
      rewrite list_lookup_middle; [done|]. rewrite length_app. simpl. lia. }
  exists i, (S (S i)). split.
  { apply lookup_lt_Some in Hi. lia. }
  unfold multiplication_pattern. cbn [ends]. apply in_or_app. left.
  apply in_flat_map. exists (S i). split; [|by apply ends_Chr].
  apply in_flat_map. exists (S i). split; [|apply star_ends_start].
  apply in_flat_map. exists (S i). split; [|apply star_ends_start].
  rewrite Hi, (re_d_ascii d Hd). by left.
Qed.

Lemma digit_then_x_matches_witness :
  contains_multiplication_phrase (uni:=ascii_tables) (T "get 10X today") = true.
Proof.
  apply (digit_then_x_matches (uni:=ascii_tables) (T "get 10X today")
           (T "get 1") 48%N 88%N (T " today")); [reflexivity| |reflexivity].
  vm_compute. split; discriminate.
Defined.

Section BlankLine.

Context `{uni : Unicode}.

Lemma lstrip_spaces (l : text) : (∀ c, c ∈ l → isspace c = true) → lstrip l = [].
Proof.
  induction l as [|c l IH]; intros H; simpl; [done|].
  rewrite (H c) by left. apply IH. intros c' Hc'. apply H. by right.
Qed.

Lemma strip_blank (line : text) :
  (∀ c, c ∈ line → isspace c = true) → lower (strip line) = [].
Proof.
  intros H. unfold strip. rewrite (lstrip_spaces _ H). apply lower_nil.
Qed.

(** A text that contains a word character has a word boundary. *)
Lemma word_boundary_exists (s : text) :
  (∃ c, c ∈ s ∧ re_w c = true) →
  ∃ i, (i < length s)%nat ∧ word_at (char_before s i) = false
       ∧ word_at (s !! i) = true.
Proof.
  induction s as [|a s IH]; intros (c & Hc & Hw).
  - by apply elem_of_nil in Hc.
  - destruct (re_w a) eqn:Ha.
    + exists 0%nat. simpl. split; [lia|]. by split.
    + apply elem_of_cons in Hc as [->|Hc]; [congruence|].
      destruct (IH (ex_intro _ c (conj Hc Hw))) as (i & Hi & Hb & Hn).
      exists (S i). simpl. split; [lia|]. split; [|done].
      destruct i as [|i]; simpl in *; [by rewrite Ha|done].
Qed.

End BlankLine.

(** X23.  [load_phrases] keeps the blank lines of a file as the empty
    phrase, and the empty phrase matches every text that contains a word
    character: a block list loaded from a file with a blank line fires on
    every such text. *)
Theorem blank_line_matches_everything `{uni : Unicode} lines (line text : text) :
  line ∈ lines →
  (∀ c, c ∈ line → isspace c = true) →
  (∃ c, c ∈ text ∧ re_w c = true) →
  existsb (phrase_matches text) (load_phrases lines) = true.
Proof.
  intros Hline Hblank Hword. apply existsb_exists. exists []. split.
  - apply list_elem_of_In. unfold load_phrases.
    apply list_elem_of_fmap. exists line. split; [|done].
    symmetry. by apply strip_blank.
  - unfold phrase_matches, phrase_pattern. apply search_true.
    destruct (word_boundary_exists _ Hword) as (i & Hi & Hb & Hn).
    exists i, i. split; [lia|].
    apply ends_Cat. exists i. split.
    { apply ends_Look. split; [done|]. by rewrite Hb, Hn. }
    apply ends_Cat. exists i. split; [by left|].
    apply ends_Look. split; [done|]. by rewrite Hb, Hn.
Qed.

(** A ban list read from a file whose second line is blank. *)
Lemma blank_line_matches_everything_witness :
  existsb (phrase_matches (uni:=ascii_tables) (T "good morning"))
          (load_phrases (uni:=ascii_tables) [T "scam"; T " "])
  = true.
Proof.
  apply (blank_line_matches_everything (uni:=ascii_tables) [T "scam"; T " "]
           (T " ") (T "good morning")).
  - right. left.
  - intros c Hc. vm_compute in Hc.
    apply elem_of_cons in Hc as [->|Hc]; [reflexivity|].
    by apply elem_of_nil in Hc.
  - exists 103%N. split; [left|reflexivity].
Defined.

(** ** The rotating security message *)

Section Security.

Context `{uni : Unicode} (cfg : Config) (plat : Platform) (messages : list text).

(** X24.  [message_index] stays an index of [messages]: if it is one
    before a sequence of runs of [post_security_message], it is one after
    them, whichever sends and pins fail. *)
Theorem security_index_in_range n message_index w :
  (message_index < length messages)%nat →
  ((security_runs cfg plat messages n message_index w).1 < length messages)%nat.
Proof.
  revert message_index w. induction n as [|n IH]; intros idx w Hidx; [done|].
  cbn [security_runs].
  destruct (post_security_message cfg plat messages idx w) as [o w1] eqn:Hrun.
  apply IH. unfold post_security_message in Hrun.
  destruct (messages !! idx); [|by inversion Hrun].
  destruct (send_message _ _ _ _) as [[sent|e] w'];
    [|by inversion Hrun].
  destruct (bot_call _ _ _) as [[[]|e] w'']; inversion Hrun; subst; simpl;
    [|done].
  apply Nat.mod_upper_bound. lia.
Qed.

Lemma security_run_ok message_index w m :
  (∀ h c, raises plat h c = false) →
  messages !! message_index = Some m →
  post_security_message cfg plat messages message_index w
  = (Posted ((message_index + 1) mod length messages)%nat,
     after_calls w [SendMessage (GROUP_CHAT_ID cfg) m;
                    PinChatMessage (GROUP_CHAT_ID cfg)
                      (sent_message_id plat (calls w))]).
Proof.
  intros Hok Hm. unfold post_security_message.
  rewrite Hm, send_message_run, Hok, bot_call_run, Hok.
  by rewrite after_calls_app.
Qed.

(** X25.  On a platform where no call fails, [n] runs started at a valid
    index send the messages in the cyclic order of the list, starting at
    that index, one message per run, and leave the index advanced by [n]
    modulo the length of the list. *)
Theorem security_rotation n message_index w :
  (∀ h c, raises plat h c = false) →
  (message_index < length messages)%nat →
  ∃ l, (security_runs cfg plat messages n message_index w).2 = after_calls w l
    ∧ (security_runs cfg plat messages n message_index w).1
      = ((message_index + n) mod length messages)%nat
    ∧ length (List.filter is_send_message l) = n
    ∧ ∀ k, (k < n)%nat →
        List.filter is_send_message l !! k
        = SendMessage (GROUP_CHAT_ID cfg)
            <$> messages !! ((message_index + k) mod length messages)%nat.
Proof.
  intros Hok. revert message_index w.
  induction n as [|n IH]; intros idx w Hidx.
  - exists []. rewrite after_calls_nil. simpl. rewrite Nat.add_0_r.
    rewrite Nat.mod_small by done. repeat split. intros k Hk; lia.
  - destruct (lookup_lt_is_Some_2 messages idx Hidx) as [m Hm].
    cbn [security_runs]. rewrite (security_run_ok idx w m Hok Hm).
    cbn [index_after].
    assert ((idx + 1) mod length messages < length messages)%nat as Hidx'
      by (apply Nat.mod_upper_bound; lia).
    destruct (IH ((idx + 1) mod length messages)%nat
                 (after_calls w [SendMessage (GROUP_CHAT_ID cfg) m;
                                 PinChatMessage (GROUP_CHAT_ID cfg)
                                   (sent_message_id plat (calls w))]) Hidx')
      as (l & -> & -> & Hlen & Hsent).
    eexists. rewrite after_calls_app. split; [reflexivity|].
    split; [|split].
    + rewrite Nat.Div0.add_mod_idemp_l. f_equal. lia.
    + simpl. by rewrite Hlen.
    + intros [|k] Hk; simpl.
      * rewrite Nat.add_0_r, Nat.mod_small by done. by rewrite Hm.
      * rewrite Hsent by lia. rewrite Nat.Div0.add_mod_idemp_l.
        do 3 f_equal. lia.
Qed.

End Security.

Lemma security_index_in_range_witness :
  ((security_runs cfg0 plat_logo_fails security_messages 5 1 w0).1
   < length security_messages)%nat.
Proof.
  apply (security_index_in_range cfg0 plat_logo_fails security_messages 5 1 w0).
  vm_compute; lia.
Defined.

Lemma security_rotation_witness :
  ∃ l, (security_runs cfg0 plat0 security_messages 3 1 w0).2 = after_calls w0 l
    ∧ (security_runs cfg0 plat0 security_messages 3 1 w0).1
      = ((1 + 3) mod length security_messages)%nat
    ∧ length (List.filter is_send_message l) = 3%nat
    ∧ ∀ k, (k < 3)%nat →
        List.filter is_send_message l !! k
        = SendMessage (GROUP_CHAT_ID cfg0)
            <$> security_messages !! ((1 + k) mod length security_messages)%nat.
Proof.
  apply (security_rotation cfg0 plat0 security_messages 3 1 w0).
  - reflexivity.
  - vm_compute; lia.
Defined.

(** ** The listing of the filters *)

Section Listing.

Context `{uni : Unicode}.

(** The order of strings: [a <= b] when [a] is a prefix of [b], or when
    at the first place where they differ the character of [a] is the
    smaller. *)
Lemma text_leb_spec (a b : text) :
  text_leb a b = true
  ↔ (∃ q, b = a ++ q)
    ∨ (∃ p x y a' b', a = p ++ x :: a' ∧ b = p ++ y :: b' ∧ (x < y)%N).
Proof.
  revert b. induction a as [|x a IH]; intros [|y b]; simpl.
  - split; [|done]. intros _. left. by exists [].
  - split; [|done]. intros _. left. by exists (y :: b).
  - split; [done|]. intros [[q Hq]|(p & x' & y' & a' & b' & _ & Hb & _)].
    + done.
    + by destruct p.
  - destruct (N.ltb_spec x y) as [Hlt|Hge].
    + split; [|done]. intros _. right. by exists [], x, y, a, b.
    + destruct (N.eqb_spec x y) as [->|Hne].
      * rewrite IH. split.
        -- intros [[q ->]|(p & x' & y' & a' & b' & -> & -> & Hxy)].
           ++ left. by exists q.
           ++ right. by exists (y :: p), x', y', a', b'.
        -- intros [[q Hq]|(p & x' & y' & a' & b' & Ha & Hb & Hxy)].
           ++ left. exists q. by inversion Hq.
           ++ destruct p as [|z p]; simpl in *.
              ** inversion Ha; inversion Hb; subst. lia.
              ** right. exists p, x', y', a', b'.
                 inversion Ha; inversion Hb; by subst.
      * split; [done|].
        intros [[q Hq]|(p & x' & y' & a' & b' & Ha & Hb & Hxy)].
        -- inversion Hq. congruence.
        -- destruct p as [|z p]; simpl in *;
             inversion Ha; inversion Hb; subst; [lia|congruence].
Qed.

Lemma text_leb_total (a b : text) : text_leb a b = true ∨ text_leb b a = true.
Proof.
  revert b. induction a as [|x a IH]; intros [|y b]; simpl; auto.
  destruct (N.ltb_spec x y) as [Hxy|Hxy]; [by left|].
  destruct (N.ltb_spec y x) as [Hyx|Hyx]; [by right|].
  assert (x = y) as -> by lia. rewrite N.eqb_refl. apply IH.
Qed.

(** What [k.lstrip('/')] removes: all the leading slashes. *)
Lemma lstrip_slash_spec (k : text) :
  ∃ n, k = replicate n 47%N ++ lstrip_slash k
       ∧ head (lstrip_slash k) ≠ Some 47%N.
Proof.
  induction k as [|c k (n & Hk & Hhd)]; simpl.
  - by exists 0%nat.
  - destruct (N.eqb_spec c 47) as [->|Hne].
    + exists (S n). simpl. by rewrite <- Hk.
    + exists 0%nat. simpl. split; [done|]. congruence.
Qed.

Lemma key_leb_refl a b : sort_key a = sort_key b → key_leb a b = true.
Proof.
  intros H. unfold key_leb. rewrite H.
  by destruct (text_leb_total (sort_key b) (sort_key b)).
Qed.

Lemma insert_by_key_perm x l : insert_by_key x l ≡ₚ x :: l.
Proof.
  induction l as [|y l IH]; simpl; [done|].
  destruct (key_leb x y); [done|]. rewrite IH. apply Permutation_swap.
Qed.

Lemma insert_by_key_sorted x l :
  Sorted (fun a b => key_leb a b = true) l →
  Sorted (fun a b => key_leb a b = true) (insert_by_key x l).
Proof.
  induction 1 as [|y l Hl IH Hhd]; simpl.
  - by repeat constructor.
  - destruct (key_leb x y) eqn:Hxy.
    + constructor; [by constructor|by constructor].
    + assert (key_leb y x = true) as Hyx.
      { unfold key_leb in *.
        destruct (text_leb_total (sort_key x) (sort_key y)); [congruence|done]. }
      constructor; [done|]. destruct l as [|z l]; simpl.
      * by constructor.
      * destruct (key_leb x z); constructor; [done|].
        by inversion Hhd.
Qed.

Lemma insert_by_key_filter (k : text) x l :
  filter (fun y => sort_key y = k) (insert_by_key x l)
  = filter (fun y => sort_key y = k) (x :: l).
Proof.
  induction l as [|y l IH]; simpl; [done|].
  destruct (key_leb x y) eqn:Hxy; [done|].
  rewrite filter_cons, IH, !filter_cons.
  destruct (decide (sort_key y = k)) as [Hy|Hy]; [|done].
  destruct (decide (sort_key x = k)) as [Hx|Hx]; [|done].
  rewrite key_leb_refl in Hxy by congruence. done.
Qed.

End Listing.

(** X26.  The triggers are listed in the order of their keys, each
    trigger of the table once, and triggers of equal key keep the order
    they have in the table.  The key of a trigger is the lower case of the
    trigger without its leading slashes, and keys are compared character by
    character, a prefix coming first. *)
Theorem sorted_triggers_spec `{uni : Unicode} (keys : list text) :
  (∀ k, sort_key k = lower (lstrip_slash k)
        ∧ ∃ n, k = replicate n 47%N ++ lstrip_slash k
               ∧ head (lstrip_slash k) ≠ Some 47%N)
  ∧ (∀ a b, key_leb a b = true
            ↔ (∃ q, sort_key b = sort_key a ++ q)
              ∨ (∃ p x y a' b', sort_key a = p ++ x :: a'
                                ∧ sort_key b = p ++ y :: b' ∧ (x < y)%N))
  ∧ sorted keys ≡ₚ keys
  ∧ Sorted (fun a b => key_leb a b = true) (sorted keys)
  ∧ ∀ k : text, filter (fun y => sort_key y = k) (sorted keys)
                = filter (fun y => sort_key y = k) keys.
Proof.
  split; [intros k; split; [done|apply lstrip_slash_spec]|].
  split; [intros a b; apply text_leb_spec|].
  unfold sorted. induction keys as [|x keys (IHp & IHs & IHf)]; simpl.
  - split; [done|]. split; [constructor|done].
  - split; [by rewrite insert_by_key_perm, IHp|].
    split; [by apply insert_by_key_sorted|].
    intros k. by rewrite insert_by_key_filter, !filter_cons, IHf.
Qed.

Section Chunks.

Context {A : Type} (l : list A).

Lemma concat_slices m :
  concat ((fun i => take 80 (drop i l)) <$> ((fun k => k * 80)%nat <$> seq 0 m))
  = take (m * 80) l.
Proof.
  induction m as [|m IH]; [by rewrite take_0|].
  rewrite seq_S, !fmap_app, concat_app, IH. simpl.
  rewrite app_nil_r, take_take_drop. f_equal. lia.
Qed.

End Chunks.

(** X27.  The slices of a long listing lose and repeat nothing: put end
    to end they are the formatted triggers, in order; and each slice holds
    at least one and at most 80 triggers. *)
Theorem chunks_spec (formatted_triggers : list text) :
  concat (chunks formatted_triggers) = formatted_triggers
  ∧ Forall (fun chunk => (0 < length chunk ≤ 80)%nat) (chunks formatted_triggers).
Proof.
  unfold chunks, range_step. set (n := length formatted_triggers).
  pose proof (Nat.div_mod_eq (n + 80 - 1) 80) as Hdiv.
  pose proof (Nat.mod_upper_bound (n + 80 - 1) 80 ltac:(lia)) as Hmod.
  split.
  - rewrite concat_slices. apply take_ge. fold n. lia.
  - apply Forall_forall. intros chunk Hin.
    apply list_elem_of_fmap in Hin as (i & -> & Hi).
    apply list_elem_of_fmap in Hi as (k & -> & Hk).
    apply list_elem_of_In, in_seq in Hk.
    rewrite length_take, length_drop. fold n. lia.
Qed.

Lemma list_filters_replies_nonempty `{uni : Unicode} triggers :
    list_filters_replies triggers ≠ [].
Proof.
  unfold list_filters_replies.
  destruct (sorted triggers) as [|x l]; [by vm_compute|].
  destruct (Nat.ltb _ _); [|done].
  unfold chunks, range_step. rewrite length_fmap. simpl length.
  destruct ((S (length l) + 80 - 1) / 80)%nat eqn:Hdiv; [|done].
  pose proof (Nat.div_mod_eq (S (length l) + 80 - 1) 80) as Hd.
  pose proof (Nat.mod_upper_bound (S (length l) + 80 - 1) 80 ltac:(lia)) as Hm.
  rewrite Hdiv in Hd. lia.
Qed.

(** X28.  [list_filters] replies to [update.message] only: for an update
    without one (a channel post, an edited message) it raises
    AttributeError before any call, whatever the filters are. *)
Theorem list_filters_needs_message `{uni : Unicode} plat triggers upd w :
  message upd = None →
  list_filters plat triggers upd w = (Raise AttributeError, w).
Proof.
  intros Hnone. unfold list_filters.
  destruct (list_filters_replies triggers) as [|r rs] eqn:Hr.
  - by apply list_filters_replies_nonempty in Hr.
  - simpl. by rewrite Hnone.
Qed.

Lemma list_filters_needs_message_witness :
  list_filters (uni:=ascii_tables) plat0 [(T "/b"); (T "a"); (T "/Z")] (edited bob) w0
  = (Raise AttributeError, w0).
Proof.
  apply (list_filters_needs_message (uni:=ascii_tables) plat0 [(T "/b"); (T "a");
      (T "/Z")] (edited bob) w0).
  reflexivity.
Defined.
